(** * dnstxtjwt: the chunk codec (CreateRecord / reassemble)

    A shallow embedding of the Go package [dnstxtjwt]: the encoder
    ([create.split], [CreateRecord], the [CreateOption]s) and the decoder
    ([reassemble], [getIndexInt]), with the properties of the codec proved
    about the embedded functions.

    Go strings and byte slices are sequences of bytes: they are modelled as
    [list ascii].  The map [parts] of [reassemble] is a [gmap Z (list ascii)].
    A Go [int] is taken to be 64 bits wide; where the code can overflow it
    (the index parser) the wrap-around is written out. *)

From Stdlib Require Import ZArith Lia ZifyBool.
From Stdlib Require Import Strings.Ascii Strings.String.
From Stdlib Require Import Numbers.DecimalString Numbers.DecimalNat.
From stdpp Require Import base tactics option list gmap fin_maps strings.

Local Open Scope Z_scope.

(** * The model *)

(** ** Strings and run-time outcomes *)

Abbreviation gostring := (list ascii).

(** A string literal as a Go string. *)
Definition str (s : string) : gostring := list_ascii_of_string s.

(** [len(x)] as a Go [int]. *)
Definition len {A} (l : list A) : Z := Z.of_nat (length l).

Definition byteZ (c : ascii) : Z := Z.of_N (N_of_ascii c).

(** The outcome of running a piece of Go code: it returns, it panics (a
    slice or index expression out of range), or the loop has not finished
    after the number of iterations the model was given. *)
Inductive run (A : Type) : Type :=
| Ret (a : A)
| Panic
| NoFuel.
Arguments Ret {A} a.
Arguments Panic {A}.
Arguments NoFuel {A}.

Definition run_bind {A B} (f : A → run B) (m : run A) : run B :=
  match m with
  | Ret a => f a
  | Panic => Panic
  | NoFuel => NoFuel
  end.

#[global] Instance run_mret : MRet run := @Ret.
#[global] Instance run_mbind : MBind run := @run_bind.

(** [l[i]]: panics when [i] is out of range. *)
Definition index {A} (l : list A) (i : Z) : run A :=
  if (0 <=? i) && (i <? len l)
  then match l !! Z.to_nat i with Some x => Ret x | None => Panic end
  else Panic.

(** [buf[:hi]] and [buf[lo:]]: panic when the bound is negative or beyond the
    slice.  ([buf[:hi]] is checked against the capacity, which is at least the
    length; [split] never asks for more than the length.) *)
Definition slice_to {A} (buf : list A) (hi : Z) : run (list A) :=
  if (0 <=? hi) && (hi <=? len buf) then Ret (take (Z.to_nat hi) buf) else Panic.

Definition slice_from {A} (buf : list A) (lo : Z) : run (list A) :=
  if (0 <=? lo) && (lo <=? len buf) then Ret (drop (Z.to_nat lo) buf) else Panic.

(** A 64-bit signed [int]: the value of an arithmetic result after
    wrap-around. *)
Definition int_wrap (x : Z) : Z := (x + 2 ^ 63) mod 2 ^ 64 - 2 ^ 63.

(** ** The Go library functions the codec calls *)

(** [strings.Split(s, sep)] for a one-byte separator: the substrings between
    the separators, one more than there are separators. *)
Fixpoint Split (s : gostring) (sep : ascii) : list gostring :=
  match s with
  | [] => [[]]
  | c :: s' =>
      if Ascii.eqb c sep then [] :: Split s' sep
      else match Split s' sep with
           | seg :: segs => (c :: seg) :: segs
           | [] => [[c]]
           end
  end.

(** [unicode.IsSpace] on the UTF-8 encoding of a rune.  One byte: tab, line
    feed, vertical tab, form feed, carriage return, space. *)
Definition isSpace1 (c : ascii) : bool :=
  let b := byteZ c in ((9 <=? b) && (b <=? 13)) || (b =? 32).

(** Two bytes: U+0085 (C2 85) and U+00A0 (C2 A0). *)
Definition isSpace2 (c1 c2 : ascii) : bool :=
  (byteZ c1 =? 194) && ((byteZ c2 =? 133) || (byteZ c2 =? 160)).

(** Three bytes: U+1680 (E1 9A 80), U+2000..U+200A (E2 80 80..8A),
    U+2028, U+2029 (E2 80 A8, A9), U+202F (E2 80 AF), U+205F (E2 81 9F),
    U+3000 (E3 80 80). *)
Definition isSpace3 (c1 c2 c3 : ascii) : bool :=
  let b1 := byteZ c1 in
  let b2 := byteZ c2 in
  let b3 := byteZ c3 in
  ((b1 =? 225) && (b2 =? 154) && (b3 =? 128))
  || ((b1 =? 226) && (b2 =? 128)
      && (((128 <=? b3) && (b3 <=? 138)) || (b3 =? 168) || (b3 =? 169) || (b3 =? 175)))
  || ((b1 =? 226) && (b2 =? 129) && (b3 =? 159))
  || ((b1 =? 227) && (b2 =? 128) && (b3 =? 128)).

(** Drop the white-space runes at the front of [s].  With [fwd = false] the
    string is read back to front (its bytes reversed), so the bytes of a rune
    arrive last byte first. *)
Fixpoint trimFront (fwd : bool) (s : gostring) : gostring :=
  match s with
  | [] => []
  | c1 :: s1 =>
      if isSpace1 c1 then trimFront fwd s1
      else match s1 with
           | [] => s
           | c2 :: s2 =>
               if (if fwd then isSpace2 c1 c2 else isSpace2 c2 c1) then trimFront fwd s2
               else match s2 with
                    | [] => s
                    | c3 :: s3 =>
                        if (if fwd then isSpace3 c1 c2 c3 else isSpace3 c3 c2 c1)
                        then trimFront fwd s3
                        else s
                    end
           end
  end.

(** [strings.TrimSpace(s)]: [s] without its leading and trailing white space,
    as [unicode.IsSpace] defines it.  A byte that is not part of a well-formed
    UTF-8 encoding of a white-space rune stops the trimming. *)
Definition TrimSpace (s : gostring) : gostring :=
  reverse (trimFront false (reverse (trimFront true s))).

(** [fmt.Sprintf("%d", n)] for [0 <= n]. *)
Definition itoa (n : Z) : gostring :=
  str (NilZero.string_of_uint (Nat.to_uint (Z.to_nat n))).

(** [fmt.Sprintf("%02d", idx)]: at least two characters, padded with a zero;
    the sign of a negative number counts as a character. *)
Definition Sprintf_02d (idx : Z) : gostring :=
  if idx <? 0 then "-"%char :: itoa (- idx)
  else let d := itoa idx in
       if len d <? 2 then "0"%char :: d else d.

(** [fmt.Sprintf("%02d:%s", idx, s)]. *)
Definition Sprintf_line (idx : Z) (s : gostring) : gostring :=
  Sprintf_02d idx ++ ":"%char :: s.

(** ** reassemble.go *)

(** The [switch] of [getIndexInt]: the ten cases of a decimal digit.  Ranging
    over a string yields runes; a rune of a byte above 127, or of bytes that
    are not UTF-8, is not one of the ten digits, so the loop reads bytes. *)
Definition isDigit (c : ascii) : bool :=
  match c with
  | "0" | "1" | "2" | "3" | "4" | "5" | "6" | "7" | "8" | "9" => true
  | _ => false
  end%char.

Fixpoint getIndexInt_loop (s : gostring) (n : Z) : Z :=
  match s with
  | [] => n
  | c :: s' =>
      if isDigit c
      then getIndexInt_loop s' (int_wrap (n * 10 + (byteZ c - byteZ "0")))
      else -1
  end.

Definition getIndexInt (s : gostring) : Z :=
  getIndexInt_loop (TrimSpace s) 0.

(** The body of the loop over the lines. *)
Definition reassemble_line (parts : gmap Z gostring) (line : gostring)
  : run (gmap Z gostring) :=
  let segments := Split line ":" in
  if negb (len segments =? 2) then Ret parts
  else
    s0 ← index segments 0;
    let n := getIndexInt s0 in
    if n <? 0 then Ret parts
    else
      s1 ← index segments 1;
      Ret (<[n := TrimSpace s1]> parts).

Fixpoint reassemble_lines (parts : gmap Z gostring) (lines : list gostring)
  : run (gmap Z gostring) :=
  match lines with
  | [] => Ret parts
  | line :: lines' =>
      parts' ← reassemble_line parts line;
      reassemble_lines parts' lines'
  end.

(** The second loop, [for i := 0; i < len(parts); i++]: [todo] is the number
    of iterations left, [len(parts) - i]. *)
Fixpoint reassemble_join (parts : gmap Z gostring) (todo : nat) (i : Z)
    (buf : gostring) : gostring :=
  match todo with
  | O => buf
  | S todo' =>
      match parts !! i with
      | None => []
      | Some val => reassemble_join parts todo' (i + 1) (buf ++ val)
      end
  end.

Definition reassemble (lines : list gostring) : run gostring :=
  parts ← reassemble_lines {[ 0 := [] ]} lines;
  Ret (reassemble_join parts (size parts) 0 []).

(** ** The encoder: create.split, the options, CreateRecord *)

Record create := { maxSize : Z; maxLineLength : Z }.

(** The room the loop of [split] leaves for the payload of the next line,
    before it is cut down to what is left of the buffer. *)
Definition line_room (c : create) (result : list gostring) : Z :=
  if len result >? 999 then maxLineLength c - len (str "9999:")
  else if len result >? 99 then maxLineLength c - len (str "999:")
  else maxLineLength c - len (str "99:").

(** [func (c create) split(buf []byte) (result []string, n int)].  The loop
    runs while [len(buf) > 0]; [fuel] bounds the number of iterations the
    model performs.  [idx] and [n] count lines and bytes that are all held in
    memory, so they stay far below the range of an [int]. *)
Fixpoint split_loop (fuel : nat) (c : create) (idx : Z) (buf : gostring)
    (result : list gostring) (n : Z) : run (list gostring * Z) :=
  if negb (len buf >? 0) then Ret (result, n)
  else
    match fuel with
    | O => NoFuel
    | S fuel' =>
        let max := line_room c result in
        let max := if len buf <? max then len buf else max in
        s ← slice_to buf max;
        buf' ← slice_from buf max;
        let line := Sprintf_line idx s in
        split_loop fuel' c (idx + 1) buf' (result ++ [line]) (n + len line)
    end.

Definition split (fuel : nat) (c : create) (buf : gostring)
  : run (list gostring * Z) :=
  split_loop fuel c 0 buf [] 0.

(** The values of the interface [CreateOption]: its method is unexported, so
    the two constructors of the package and [nil] are all there is. *)
Inductive CreateOption :=
| WithMaxLineLength (length : Z)
| WithMaxSize (size : Z)
| NilOption.

Definition apply (opt : CreateOption) (c : create) : create :=
  match opt with
  | WithMaxLineLength length =>
      let length := if (length <=? 0) || (length >? 254) then 254 else length in
      {| maxSize := maxSize c; maxLineLength := length |}
  | WithMaxSize size =>
      let size := if (size <=? 0) || (size >? 65270) then 15 * 1024 else size in
      {| maxSize := size; maxLineLength := maxLineLength c |}
  | NilOption => c
  end.

(** The loop of [CreateRecord] over the defaults followed by the options. *)
Definition configure (opts : list CreateOption) : create :=
  foldl (λ c opt, apply opt c) {| maxSize := 0; maxLineLength := 0 |}
        ([WithMaxSize 0; WithMaxLineLength 0] ++ opts).

Inductive error := ErrInvalidJWT | ErrInvalidInput.

(** [CreateRecord(jwt, opts...)]: the lines and the error it returns ([nil]
    lines are the empty list, a [nil] error is [None]). *)
Definition CreateRecord (fuel : nat) (jwt : gostring) (opts : list CreateOption)
  : run (list gostring * option error) :=
  let c := configure opts in
  '(lines, n) ← split fuel c jwt;
  if n >? maxSize c then Ret ([], Some ErrInvalidInput)
  else Ret (lines, None).

(** * The vocabulary of the statements *)

(** ** What the decoder keeps of a line *)

(** The frame [reassemble] stores for a line: its index and its trimmed
    payload, or nothing when the loop skips the line. *)
Definition frame_of (line : gostring) : option (Z * gostring) :=
  match Split line ":" with
  | [s0; s1] =>
      let n := getIndexInt s0 in
      if n <? 0 then None else Some (n, TrimSpace s1)
  | _ => None
  end.

(** [parts[n] = txt] for a frame [(n, txt)]. *)
Definition store (parts : gmap Z gostring) (fr : Z * gostring) : gmap Z gostring :=
  <[fr.1 := fr.2]> parts.

(** The map the first loop builds from the lines. *)
Definition parts_of (lines : list gostring) : gmap Z gostring :=
  foldl store {[ 0 := [] ]} (omap frame_of lines).

(** ** The map of a chunk set *)

(** The frames of the payloads [ps] at the indices [base], [base + 1], ... *)
Definition indexed (base : Z) (ps : list gostring) : list (Z * gostring) :=
  zip (seqZ base (len ps)) ps.

(** Frames that give every index one payload only. *)
Definition functional (frames : list (Z * gostring)) : Prop :=
  ∀ i p q, (i, p) ∈ frames → (i, q) ∈ frames → p = q.

(** ** Lines the decoder skips *)

(** The number of bytes [sep] in a string. *)
Fixpoint count_byte (sep : ascii) (s : gostring) : nat :=
  match s with
  | [] => 0%nat
  | c :: s' => ((if Ascii.eqb c sep then 1 else 0) + count_byte sep s')%nat
  end.

(** An index field is not a number when, once trimmed, it holds a character
    that is not a decimal digit. *)
Definition non_numeric (idx : gostring) : Prop :=
  ∃ c, c ∈ TrimSpace idx ∧ isDigit c = false.

(** The malformed lines: no colon, two colons or more, or an index field
    (the text before the colon) that is not a number. *)
Inductive malformed (line : gostring) : Prop :=
| malformed_no_colon :
    count_byte ":" line = 0%nat → malformed line
| malformed_colons :
    (2 ≤ count_byte ":" line)%nat → malformed line
| malformed_index idx payload :
    line = idx ++ ":"%char :: payload → non_numeric idx → malformed line.

(** [adds_malformed lines lines']: [lines'] is [lines] with malformed lines
    added, anywhere. *)
Inductive adds_malformed : list gostring → list gostring → Prop :=
| adds_nil : adds_malformed [] []
| adds_keep line lines lines' :
    adds_malformed lines lines' → adds_malformed (line :: lines) (line :: lines')
| adds_junk junk lines lines' :
    malformed junk → adds_malformed lines lines' →
    adds_malformed lines (junk :: lines').

(** ** White space *)

(** Strings of white-space runes only. *)
Inductive white_space : gostring → Prop :=
| white_nil : white_space []
| white_1 c s :
    isSpace1 c = true → white_space s → white_space (c :: s)
| white_2 c1 c2 s :
    isSpace2 c1 c2 = true → white_space s → white_space (c1 :: c2 :: s)
| white_3 c1 c2 c3 s :
    isSpace3 c1 c2 c3 = true → white_space s → white_space (c1 :: c2 :: c3 :: s).

(** [space_at s]: a white-space rune starts [s]; [has_space s]: one starts
    somewhere in [s]. *)
Definition space_at (s : gostring) : bool :=
  match s with
  | [] => false
  | c1 :: s1 =>
      isSpace1 c1
      || match s1 with
         | [] => false
         | c2 :: s2 =>
             isSpace2 c1 c2
             || match s2 with
                | [] => false
                | c3 :: _ => isSpace3 c1 c2 c3
                end
         end
  end.

Fixpoint has_space (s : gostring) : bool :=
  match s with
  | [] => false
  | _ :: s' => space_at s || has_space s'
  end.

(** ** Decimal indices *)

(** Strings of decimal digits. *)
Definition digits (s : gostring) : Prop := Forall (λ c, isDigit c = true) s.

(** ** The lines of the encoder *)

(** The lines for the chunks of a payload, numbered from [idx]. *)
Fixpoint lines_from (idx : Z) (chunks : list gostring) : list gostring :=
  match chunks with
  | [] => []
  | chunk :: chunks' => Sprintf_line idx chunk :: lines_from (idx + 1) chunks'
  end.

(** The sum of the lengths of the lines. *)
Definition total_len (lines : list gostring) : Z :=
  foldr (λ line acc, len line + acc) 0 lines.

(** A budget within the bounds the options enforce. *)
Definition in_budget (c : create) : Prop :=
  1 ≤ maxSize c ≤ 65270 ∧ 1 ≤ maxLineLength c ≤ 254.

(** A string with no colon and no white-space character. *)
Definition plain (s : gostring) : Prop :=
  count_byte ":" s = 0%nat ∧ has_space s = false.

(** ** The sizes of the lines *)

(** The decimal value of a string of digits, as the loop of [getIndexInt]
    accumulates it, without the wrap-around. *)
Definition decimal_value (s : gostring) : Z :=
  foldl (λ n c, n * 10 + (byteZ c - byteZ "0")) 0 s.

(** The room [split] leaves for the payload of the line after [k] lines. *)
Definition room (c : create) (k : Z) : Z :=
  if k >? 999 then maxLineLength c - 5
  else if k >? 99 then maxLineLength c - 4
  else maxLineLength c - 3.

(** The chunks fit the lines from line [k] on: none is empty, none has more
    bytes than the room of its line, and all but the last fill the room. *)
Fixpoint chunks_fit (c : create) (k : Z) (chunks : list gostring) : Prop :=
  match chunks with
  | [] => True
  | chunk :: chunks' =>
      1 ≤ len chunk ≤ room c k
      ∧ (chunks' ≠ [] → len chunk = room c k)
      ∧ chunks_fit c (k + 1) chunks'
  end.

(** The characters [fmt.Sprintf("%02d", k)] prints for the index of line
    [k], below 10000. *)
Definition index_width (k : Z) : Z :=
  if k >? 999 then 4 else if k >? 99 then 3 else 2.

(** A decimal numeral that starts with a digit other than 0. *)
Definition nonzero_head (d : Decimal.uint) : Prop :=
  match d with
  | Decimal.Nil | Decimal.D0 _ => False
  | _ => True
  end.

(** ** fetcher.go and fetcher_options.go: the configuration of a Fetcher *)

Module Fetch.
Section model.
(** The values of the interface [Resolver] and of [jwt.ParseOption] are
    opaque here; [DefaultResolver] is [net.DefaultResolver]. *)
Context {Resolver ParseOption : Type} (DefaultResolver : Resolver).

(** [resolver] is an interface value: [None] is [nil].  [timeout] is a
    [time.Duration], a count of nanoseconds. *)
Record Fetcher := {
  fqdn : gostring;
  resolver : option Resolver;
  timeout : Z;
  opts : list ParseOption;
}.

(** The values of the interface [FetcherOption]: its method is unexported,
    so the constructors of the package and [nil] are all there is. *)
Inductive FetcherOption :=
| WithResolver (resolver : option Resolver)
| WithFQDN (fqdn : gostring)
| WithTimeout (timeout : Z)
| WithParseOptions (opts : list ParseOption)
| validateOptions
| NilOption.

Definition Second : Z := 1000000000.

(** An error built by [fmt.Errorf] with the verb [%w]: the format and the
    error it wraps.  [Is] is [errors.Is]. *)
Inductive wrapError := Errorf (format : string) (wrapped : error).

Definition Is (err : wrapError) (target : error) : Prop :=
  match err with Errorf _ wrapped => wrapped = target end.

(** The method [apply]: the Fetcher as the option leaves it, and the error
    the option returns. *)
Definition apply (opt : FetcherOption) (r : Fetcher) : Fetcher * option wrapError :=
  match opt with
  | WithResolver resolver =>
      let resolver :=
        match resolver with None => Some DefaultResolver | Some _ => resolver end in
      ({| fqdn := fqdn r; resolver := resolver; timeout := timeout r; opts := opts r |},
       None)
  | WithFQDN fqdn =>
      ({| fqdn := fqdn; resolver := resolver r; timeout := timeout r; opts := opts r |},
       None)
  | WithTimeout timeout =>
      let timeout := if timeout =? 0 then 30 * Second else timeout in
      ({| fqdn := fqdn r; resolver := resolver r; timeout := timeout; opts := opts r |},
       None)
  | WithParseOptions opts' =>
      ({| fqdn := fqdn r; resolver := resolver r; timeout := timeout r;
          opts := opts r ++ opts' |},
       None)
  | validateOptions =>
      match fqdn r with
      | [] => (r, Some (Errorf "%w fqdn must be set" ErrInvalidInput))
      | _ => (r, None)
      end
  | NilOption => (r, None)
  end.

(** The loop of [New]: it skips a [nil] option and returns at the first
    error. *)
Fixpoint New_loop (r : Fetcher) (options : list FetcherOption)
  : option Fetcher * option wrapError :=
  match options with
  | [] => (Some r, None)
  | opt :: options' =>
      match opt with
      | NilOption => New_loop r options'
      | _ =>
          match apply opt r with
          | (_, Some err) => (None, Some err)
          | (r', None) => New_loop r' options'
          end
      end
  end.

(** [New(opts...)]: the Fetcher and the error it returns. *)
Definition New (options : list FetcherOption) : option Fetcher * option wrapError :=
  New_loop {| fqdn := []; resolver := None; timeout := 0; opts := [] |}
           (([WithResolver None; WithTimeout 0] ++ options) ++ [validateOptions]).

(** What an option list asks for: the values its options carry, in order. *)
Definition fqdn_of (opt : FetcherOption) : option gostring :=
  match opt with WithFQDN fqdn => Some fqdn | _ => None end.

Definition timeout_of (opt : FetcherOption) : option Z :=
  match opt with
  | WithTimeout timeout => Some (if timeout =? 0 then 30 * Second else timeout)
  | _ => None
  end.

Definition resolver_of (opt : FetcherOption) : option Resolver :=
  match opt with
  | WithResolver (Some resolver) => Some resolver
  | WithResolver None => Some DefaultResolver
  | _ => None
  end.

Definition parse_options_of (opt : FetcherOption) : list ParseOption :=
  match opt with WithParseOptions opts => opts | _ => [] end.

(** The Fetcher the options describe: for each field the value of the last
    option that sets it, or the default; the parse options of all the
    options, in order. *)
Definition configured (options : list FetcherOption) : Fetcher :=
  {| fqdn := default [] (last (omap fqdn_of options));
     resolver := Some (default DefaultResolver (last (omap resolver_of options)));
     timeout := default (30 * Second) (last (omap timeout_of options));
     opts := options ≫= parse_options_of |}.

(** A Fetcher [fetch] can use: its resolver is not [nil] and its timeout is
    not 0 (a negative timeout means none). *)
Definition kept (r : Fetcher) : Prop :=
  is_Some (resolver r) ∧ timeout r ≠ 0.
End model.
End Fetch.

(** * Facts about the model *)

(** ** The tests of reassemble.go *)

Example reassemble_from_0 :
  reassemble [str "00:header"; str "01:.payload."; str "02:signature"]
  = Ret (str "header.payload.signature").
Proof. vm_compute. reflexivity. Qed.

Example reassemble_spaces :
  reassemble [str "00:header  "; str " 01:  .payload."; str "02 :  signature "]
  = Ret (str "header.payload.signature").
Proof. vm_compute. reflexivity. Qed.

Example reassemble_from_1 :
  reassemble [str "01:header"; str "02:.payload."; str "03:signature"]
  = Ret (str "header.payload.signature").
Proof. vm_compute. reflexivity. Qed.

(** White space in UTF-8 is trimmed as well: a no-break space (C2 A0) in
    front of the index, an em space (E2 80 83) behind the payload. *)
Example reassemble_unicode_spaces :
  reassemble [["194"; "160"; "0"; ":"; "a"; "226"; "128"; "131"]%char] = Ret (str "a").
Proof. vm_compute. reflexivity. Qed.

Example reassemble_missing_part :
  reassemble [str "00:header"; str "02:signature"] = Ret [].
Proof. vm_compute. reflexivity. Qed.

Example reassemble_extra_colon :
  reassemble [str "00:header"; str "01:p:ayload"; str "02:signature"] = Ret [].
Proof. vm_compute. reflexivity. Qed.

Example reassemble_invalid_index :
  reassemble [str "00:header"; str "xx:payload"; str "02:signature"] = Ret [].
Proof. vm_compute. reflexivity. Qed.

Example reassemble_empty_input : reassemble [] = Ret [].
Proof. vm_compute. reflexivity. Qed.

(** ** The tests of CreateRecord *)

Example CreateRecord_empty : CreateRecord 0 [] [] = Ret ([], None).
Proof. vm_compute. reflexivity. Qed.

Example CreateRecord_default :
  CreateRecord 5 (str "header.payload.signature") []
  = Ret ([str "00:header.payload.signature"], None).
Proof. vm_compute. reflexivity. Qed.

Example CreateRecord_line_length :
  CreateRecord 5 (str "header.payload.signature") [WithMaxLineLength 10]
  = Ret ([str "00:header."; str "01:payload"; str "02:.signat"; str "03:ure"], None).
Proof. vm_compute. reflexivity. Qed.

Example CreateRecord_max_size :
  CreateRecord 5 (str "header.payload.signature") [WithMaxSize 10]
  = Ret ([], Some ErrInvalidInput).
Proof. vm_compute. reflexivity. Qed.

Example CreateRecord_line_length_and_size :
  CreateRecord 5 (str "header.payload.signature") [WithMaxLineLength 10; WithMaxSize 30]
  = Ret ([], Some ErrInvalidInput).
Proof. vm_compute. reflexivity. Qed.

(** ** The decoder in terms of frames *)

Lemma reassemble_line_frame parts line :
  reassemble_line parts line
  = Ret (match frame_of line with Some fr => store parts fr | None => parts end).
Proof.
  unfold reassemble_line, frame_of.
  destruct (Split line ":") as [|s0 [|s1 [|s2 segs]]]; try reflexivity.
  - change (index [s0; s1] 0) with (Ret s0).
    change (index [s0; s1] 1) with (Ret s1).
    change (negb (len [s0; s1] =? 2)) with false. cbn.
    destruct (getIndexInt s0 <? 0); reflexivity.
  - unfold len. cbn [length].
    destruct (Z.eqb_spec (Z.of_nat (S (S (S (length segs))))) 2); [lia | reflexivity].
Qed.

Lemma reassemble_lines_frames lines : ∀ parts,
  reassemble_lines parts lines = Ret (foldl store parts (omap frame_of lines)).
Proof.
  induction lines as [|line lines IH]; intros parts; [reflexivity|].
  cbn [reassemble_lines]. rewrite reassemble_line_frame. cbn.
  rewrite IH. destruct (frame_of line); reflexivity.
Qed.

Lemma reassemble_parts_of lines :
  reassemble lines
  = Ret (reassemble_join (parts_of lines) (size (parts_of lines)) 0 []).
Proof. unfold reassemble. rewrite reassemble_lines_frames. reflexivity. Qed.

(** The second loop gives up as soon as an index below [len(parts)] is
    missing, and otherwise appends the payloads in index order. *)
Lemma reassemble_join_missing parts todo : ∀ i buf j,
  parts !! j = None → i ≤ j < i + Z.of_nat todo →
  reassemble_join parts todo i buf = [].
Proof.
  induction todo as [|todo IH]; intros i buf j Hj Hr; [lia|].
  cbn [reassemble_join]. destruct (parts !! i) as [val|] eqn:Hi; [|reflexivity].
  apply (IH _ _ j); [assumption|].
  assert (i ≠ j) by congruence. lia.
Qed.

Lemma reassemble_join_present parts vals : ∀ i buf,
  (∀ k val, vals !! k = Some val → parts !! (i + Z.of_nat k) = Some val) →
  reassemble_join parts (length vals) i buf = buf ++ mjoin vals.
Proof.
  induction vals as [|v vals IH]; intros i buf H; cbn.
  - by rewrite app_nil_r.
  - specialize (H 0%nat v eq_refl) as H0. rewrite Z.add_0_r in H0. rewrite H0.
    rewrite IH, <- app_assoc; [reflexivity|].
    intros k val Hk. specialize (H (S k) val Hk).
    replace (i + 1 + Z.of_nat k) with (i + Z.of_nat (S k)) by lia. exact H.
Qed.

Lemma size_map_seqZ (vals : list gostring) : ∀ start,
  size (map_seqZ start vals : gmap Z gostring) = length vals.
Proof.
  induction vals as [|v vals IH]; intros start; cbn.
  - apply map_size_empty.
  - rewrite map_size_insert_None by apply map_seqZ_cons_disjoint.
    by rewrite IH.
Qed.

Lemma reassemble_join_seqZ (vals : list gostring) :
  let parts : gmap Z gostring := map_seqZ 0 vals in
  reassemble_join parts (size parts) 0 [] = mjoin vals.
Proof.
  cbn. rewrite size_map_seqZ.
  apply (reassemble_join_present _ vals 0 []).
  intros k val Hk. rewrite Z.add_0_l.
  by apply (lookup_map_seqZ_Some_inv 0 vals k val) in Hk.
Qed.

(** ** The map of a contiguous chunk set *)

(** Storing frames one after the other: a later frame overwrites an earlier
    one of the same index, and both overwrite what the map held before. *)
Lemma foldl_store_union frames : ∀ parts : gmap Z gostring,
  foldl store parts frames = list_to_map (reverse frames) ∪ parts.
Proof.
  induction frames as [|[k v] frames IH]; intros parts; cbn [foldl].
  - rewrite reverse_nil, list_to_map_nil. by rewrite (left_id_L ∅ (∪)).
  - rewrite IH, reverse_cons, list_to_map_app. unfold store. cbn.
    rewrite <- (assoc_L (∪)). f_equal.
    by rewrite <- insert_union_l, (left_id_L ∅ (∪)).
Qed.

Lemma NoDup_indexed base ps : NoDup (indexed base ps).*1.
Proof.
  unfold indexed, len. rewrite fst_zip by (rewrite length_seqZ; lia).
  apply NoDup_seqZ.
Qed.

Lemma length_indexed base ps : length (indexed base ps) = length ps.
Proof.
  unfold indexed, len. rewrite length_zip, length_seqZ. lia.
Qed.

Lemma fst_indexed base ps : (indexed base ps).*1 = seqZ base (len ps).
Proof. unfold indexed, len. apply fst_zip. rewrite length_seqZ. lia. Qed.

Lemma parts_of_indexed lines base ps :
  omap frame_of lines ≡ₚ indexed base ps →
  parts_of lines = map_seqZ base ps ∪ {[ 0 := [] ]}.
Proof.
  intros Hp. unfold parts_of. rewrite foldl_store_union. f_equal.
  rewrite <- list_to_map_zip_seqZ. symmetry.
  apply list_to_map_proper; [apply NoDup_indexed|].
  fold (len ps). fold (indexed base ps).
  by rewrite <- Hp, reverse_Permutation.
Qed.

Lemma seed_absorbed (m : gmap Z gostring) v :
  is_Some (m !! 0) → m ∪ {[ 0 := v ]} = m.
Proof.
  intros [x Hx]. apply map_eq. intros i. rewrite lookup_union.
  destruct (decide (i = 0)) as [->|Hi].
  - by rewrite Hx, lookup_singleton_eq.
  - rewrite lookup_singleton_ne by done. by destruct (m !! i).
Qed.

(** A set indexed from 0 fills the seeded entry; a set indexed from 1 leaves
    the seeded empty payload in front of its own. *)
Lemma parts_of_base lines base ps :
  base = 0 ∨ base = 1 →
  omap frame_of lines ≡ₚ indexed base ps →
  ∃ vals, parts_of lines = map_seqZ 0 vals ∧ mjoin vals = mjoin ps.
Proof.
  intros Hb Hp. rewrite (parts_of_indexed _ _ _ Hp).
  destruct Hb as [-> | ->].
  - destruct ps as [|p ps].
    + exists [[]]. split; [|reflexivity].
      cbn. by rewrite (left_id_L ∅ (∪)), insert_empty.
    + exists (p :: ps). split; [|reflexivity].
      apply seed_absorbed. rewrite map_seqZ_cons, lookup_insert_eq. eauto.
  - exists ([] :: ps). split; [|reflexivity].
    rewrite map_seqZ_cons. change (Z.succ 0) with 1.
    symmetry. apply insert_union_singleton_r.
    apply lookup_map_seqZ_None. lia.
Qed.

Lemma reassemble_contiguous lines base ps :
  base = 0 ∨ base = 1 →
  omap frame_of lines ≡ₚ indexed base ps →
  reassemble lines = Ret (mjoin ps).
Proof.
  intros Hb Hp. rewrite reassemble_parts_of.
  destruct (parts_of_base _ _ _ Hb Hp) as (vals & -> & <-).
  f_equal. apply reassemble_join_seqZ.
Qed.

Lemma parts_of_Permutation lines lines' :
  lines ≡ₚ lines' →
  functional (omap frame_of lines) →
  parts_of lines' = parts_of lines.
Proof.
  intros Hp Hf. unfold parts_of. rewrite !foldl_store_union. f_equal.
  assert (Hm : ∀ fr, fr ∈ reverse (omap frame_of lines')
                     ↔ fr ∈ reverse (omap frame_of lines)).
  { intros fr. by rewrite !elem_of_reverse, Hp. }
  assert (Hf' : ∀ l : list (Z * gostring),
                (∀ fr, fr ∈ l ↔ fr ∈ reverse (omap frame_of lines)) →
                ∀ i x x', (i, x) ∈ l → (i, x') ∈ l → x = x').
  { intros l Hl i x x' H1 H2. apply Hl in H1, H2.
    rewrite elem_of_reverse in H1, H2. by eapply Hf. }
  apply map_eq. intros i. apply option_eq. intros x.
  rewrite <- !elem_of_list_to_map'; [apply Hm | |]; intros x'.
  - by apply (Hf' _ (λ _, reflexivity _)).
  - by apply (Hf' _ Hm).
Qed.

(** ** Splitting at the colon, and the lines that are skipped *)

Lemma count_byte_app sep a b :
  count_byte sep (a ++ b) = (count_byte sep a + count_byte sep b)%nat.
Proof. induction a as [|c a IH]; cbn; [reflexivity | rewrite IH; lia]. Qed.

Lemma Split_length s sep : length (Split s sep) = S (count_byte sep s).
Proof.
  induction s as [|c s IH]; cbn; [reflexivity|].
  destruct (Ascii.eqb c sep); cbn; [by rewrite IH|].
  destruct (Split s sep); cbn in *; lia.
Qed.

Lemma Split_none a sep : count_byte sep a = 0%nat → Split a sep = [a].
Proof.
  induction a as [|c a IH]; cbn; [reflexivity|].
  destruct (Ascii.eqb c sep); [discriminate|].
  intros H. by rewrite IH.
Qed.

Lemma Split_app a b sep :
  count_byte sep a = 0%nat → Split (a ++ sep :: b) sep = a :: Split b sep.
Proof.
  induction a as [|c a IH]; cbn.
  - by rewrite Ascii.eqb_refl.
  - destruct (Ascii.eqb c sep); [discriminate|].
    intros H. by rewrite IH.
Qed.

Lemma frame_of_fields idx payload :
  count_byte ":" idx = 0%nat → count_byte ":" payload = 0%nat →
  frame_of (idx ++ ":"%char :: payload)
  = if getIndexInt idx <? 0 then None
    else Some (getIndexInt idx, TrimSpace payload).
Proof.
  intros Hi Hp. unfold frame_of. by rewrite Split_app, Split_none.
Qed.

Lemma frame_of_colons line fr :
  frame_of line = Some fr → count_byte ":" line = 1%nat.
Proof.
  unfold frame_of. pose proof (Split_length line ":") as Hl.
  destruct (Split line ":") as [|s0 [|s1 [|s2 segs]]]; try discriminate.
  intros _. cbn in Hl. lia.
Qed.

(** The index parser answers [-1] as soon as it meets a character that is not
    a digit, whatever it has read so far. *)
Lemma getIndexInt_loop_non_digit s : ∀ n,
  (∃ c, c ∈ s ∧ isDigit c = false) → getIndexInt_loop s n = -1.
Proof.
  induction s as [|c s IH]; intros n (d & Hd & Hnd).
  - by apply elem_of_nil in Hd.
  - cbn [getIndexInt_loop]. destruct (isDigit c) eqn:Hc; [|reflexivity].
    apply IH. exists d. split; [|assumption].
    apply elem_of_cons in Hd as [-> | Hd]; [congruence | assumption].
Qed.

Lemma frame_of_malformed line : malformed line → frame_of line = None.
Proof.
  intros Hm. destruct (frame_of line) as [fr|] eqn:Hfr; [|reflexivity].
  pose proof (frame_of_colons _ _ Hfr) as Hc.
  destruct Hm as [H0 | H2 | idx payload -> Hn]; [lia | lia |].
  rewrite count_byte_app in Hc. cbn in Hc.
  rewrite frame_of_fields in Hfr by lia.
  unfold getIndexInt in Hfr.
  rewrite (getIndexInt_loop_non_digit _ 0 Hn) in Hfr. discriminate.
Qed.

Lemma frames_adds_malformed lines lines' :
  adds_malformed lines lines' → omap frame_of lines' = omap frame_of lines.
Proof.
  induction 1 as [|line lines lines' _ IH|junk lines lines' Hj _ IH]; cbn.
  - reflexivity.
  - by rewrite IH.
  - by rewrite (frame_of_malformed _ Hj).
Qed.

(** ** Trimming *)

Lemma isSpace2_lead c1 c2 : isSpace2 c1 c2 = true → isSpace1 c1 = false.
Proof. unfold isSpace2, isSpace1. cbv zeta. lia. Qed.

Lemma isSpace3_lead c1 c2 c3 :
  isSpace3 c1 c2 c3 = true → isSpace1 c1 = false ∧ ∀ c, isSpace2 c1 c = false.
Proof.
  unfold isSpace3, isSpace2, isSpace1. cbv zeta.
  intros H. split; [|intros c]; lia.
Qed.

Lemma trimFront_white_space s : white_space s → trimFront true s = [].
Proof.
  induction 1 as [|c s Hc _ IH|c1 c2 s Hc _ IH|c1 c2 c3 s Hc _ IH];
    cbn [trimFront].
  - reflexivity.
  - by rewrite Hc.
  - by rewrite (isSpace2_lead _ _ Hc), Hc.
  - destruct (isSpace3_lead _ _ _ Hc) as [H1 H2]. by rewrite H1, H2, Hc.
Qed.

Lemma TrimSpace_white_space s : white_space s → TrimSpace s = [].
Proof. intros H. unfold TrimSpace. by rewrite (trimFront_white_space _ H). Qed.

Ltac case_spaces :=
  repeat (match goal with
          | |- context [isSpace1 ?c] => destruct (isSpace1 c)
          | |- context [isSpace2 ?c ?d] => destruct (isSpace2 c d)
          | |- context [isSpace3 ?c ?d ?e] => destruct (isSpace3 c d e)
          end; cbn [orb]; try done).

Lemma space_at_app a b : space_at (a ++ b) = false → space_at a = false.
Proof.
  destruct a as [|c1 [|c2 [|c3 a]]]; [done|..];
    destruct b as [|? [|? ?]]; cbn [space_at app]; case_spaces.
Qed.

Lemma has_space_app a b :
  has_space (a ++ b) = false → has_space a = false ∧ has_space b = false.
Proof.
  induction a as [|c a IH]; [by split|].
  change (has_space ((c :: a) ++ b)) with (space_at ((c :: a) ++ b) || has_space (a ++ b)).
  intros H. apply orb_false_elim in H as [H1 H2].
  destruct (IH H2) as [Ha Hb]. split; [|assumption].
  cbn [has_space]. by rewrite (space_at_app _ _ H1), Ha.
Qed.

Lemma has_space_head s : has_space s = false → space_at s = false.
Proof. destruct s; [reflexivity|]. cbn [has_space]. by intros [? _]%orb_false_elim. Qed.

Lemma trimFront_fwd_id s : space_at s = false → trimFront true s = s.
Proof.
  destruct s as [|c1 [|c2 [|c3 s]]]; [done|..];
    cbn [space_at trimFront]; case_spaces.
Qed.

Lemma trimFront_back_id s : has_space s = false → trimFront false (reverse s) = reverse s.
Proof.
  intros H. rewrite <- (reverse_involutive s) in H.
  destruct (reverse s) as [|c1 [|c2 [|c3 r]]]; [done|..].
  - revert H. cbn. case_spaces.
  - revert H. rewrite !reverse_cons, reverse_nil. cbn. case_spaces.
  - rewrite !reverse_cons, <- !app_assoc in H. cbn [app] in H.
    apply has_space_app in H as [_ H]. revert H.
    cbn [has_space space_at trimFront]. case_spaces.
Qed.

(** A string without white space is left as it is. *)
Lemma TrimSpace_id s : has_space s = false → TrimSpace s = s.
Proof.
  intros H. unfold TrimSpace.
  rewrite (trimFront_fwd_id s) by by apply has_space_head.
  by rewrite trimFront_back_id, reverse_involutive.
Qed.

(** ** Printing and reading an index *)

Lemma int_wrap_small x : - 2 ^ 63 ≤ x < 2 ^ 63 → int_wrap x = x.
Proof. intros H. unfold int_wrap. rewrite Z.mod_small; lia. Qed.

Lemma isDigit_byteZ c : isDigit c = true → 48 ≤ byteZ c ≤ 57.
Proof.
  destruct c as [[] [] [] [] [] [] [] []]; intros H; try discriminate H;
    vm_compute; split; intros E; discriminate E.
Qed.

Lemma digits_no_colon s : digits s → count_byte ":" s = 0%nat.
Proof.
  induction 1 as [|c s Hc _ IH]; [reflexivity|]. cbn.
  destruct (Ascii.eqb_spec c ":") as [-> | _]; [discriminate Hc | exact IH].
Qed.

Lemma digits_no_space s : digits s → has_space s = false.
Proof.
  induction 1 as [|c s Hc Hs IH]; [reflexivity|].
  cbn [has_space]. rewrite IH, orb_false_r.
  apply isDigit_byteZ in Hc.
  assert (H1 : isSpace1 c = false) by (unfold isSpace1; cbv zeta; lia).
  assert (H2 : ∀ c2, isSpace2 c c2 = false) by (intros; unfold isSpace2; lia).
  assert (H3 : ∀ c2 c3, isSpace3 c c2 c3 = false)
    by (intros; unfold isSpace3; cbv zeta; lia).
  destruct s as [|c2 [|c3 s]]; cbn; by rewrite ?H1, ?H2, ?H3.
Qed.

Lemma digits_string_of_uint d : digits (str (NilEmpty.string_of_uint d)).
Proof. induction d; cbn; constructor; done. Qed.

Lemma digits_itoa n : digits (itoa n).
Proof.
  unfold itoa, NilZero.string_of_uint.
  destruct (Nat.to_uint (Z.to_nat n)) eqn:E; rewrite <- ?E;
    try apply digits_string_of_uint.
  by repeat constructor.
Qed.

Lemma digits_Sprintf_02d idx : 0 ≤ idx → digits (Sprintf_02d idx).
Proof.
  intros H. unfold Sprintf_02d. destruct (Z.ltb_spec idx 0); [lia|].
  cbv zeta. destruct (len (itoa idx) <? 2); [constructor; [done|]|];
    apply digits_itoa.
Qed.

Lemma of_uint_acc_ge d : ∀ acc, (acc ≤ Nat.of_uint_acc d acc)%nat.
Proof.
  intros acc. rewrite Unsigned.of_uint_acc_spec.
  pose proof (Nat.pow_nonzero 10 (Unsigned.usize d)). nia.
Qed.

Lemma getIndexInt_loop_uint d : ∀ acc : nat,
  Z.of_nat (Nat.of_uint_acc d acc) < 2 ^ 63 →
  getIndexInt_loop (str (NilEmpty.string_of_uint d)) (Z.of_nat acc)
  = Z.of_nat (Nat.of_uint_acc d acc).
Proof.
  induction d as [|d IH|d IH|d IH|d IH|d IH|d IH|d IH|d IH|d IH|d IH];
    intros acc Hb; [reflexivity|..];
    cbn [NilEmpty.string_of_uint str list_ascii_of_string getIndexInt_loop];
    fold (str (NilEmpty.string_of_uint d));
    cbn [Nat.of_uint_acc] in Hb |- *;
    match goal with
    | |- context [isDigit ?c] => change (isDigit c) with true; cbv iota
    end;
    repeat match goal with
    | |- context [byteZ ?c] =>
        let v := eval vm_compute in (byteZ c) in change (byteZ c) with v
    end;
    match goal with
    | |- context [Nat.of_uint_acc d ?a] =>
        pose proof (of_uint_acc_ge d a) as Hge;
        rewrite <- (IH a Hb);
        f_equal; rewrite Nat.tail_mul_spec in *; rewrite int_wrap_small; lia
    end.
Qed.

Lemma getIndexInt_loop_itoa n :
  0 ≤ n < 2 ^ 63 → getIndexInt_loop (itoa n) 0 = n.
Proof.
  intros Hn. unfold itoa.
  assert (Hv : Nat.of_uint (Nat.to_uint (Z.to_nat n)) = Z.to_nat n)
    by apply Unsigned.of_to.
  unfold Nat.of_uint in Hv.
  unfold NilZero.string_of_uint.
  destruct (Nat.to_uint (Z.to_nat n)) as [|d|d|d|d|d|d|d|d|d|d] eqn:E; cbv iota.
  1: { change (Nat.of_uint_acc Decimal.Nil 0) with 0%nat in Hv.
       change (getIndexInt_loop (str "0") 0) with 0. lia. }
  all: etransitivity; [apply (getIndexInt_loop_uint _ 0%nat)|]; rewrite Hv; lia.
Qed.

Lemma getIndexInt_Sprintf_02d idx :
  0 ≤ idx < 2 ^ 63 → getIndexInt (Sprintf_02d idx) = idx.
Proof.
  intros Hi. unfold getIndexInt.
  rewrite TrimSpace_id by (apply digits_no_space, digits_Sprintf_02d; lia).
  unfold Sprintf_02d. destruct (Z.ltb_spec idx 0); [lia|]. cbv zeta.
  destruct (len (itoa idx) <? 2); [|by apply getIndexInt_loop_itoa].
  cbn [getIndexInt_loop]. change (isDigit "0") with true. cbv iota.
  change (int_wrap _) with 0. by apply getIndexInt_loop_itoa.
Qed.

(** The decoder reads a line of the encoder back as its index and payload
    when the payload has no colon and no white space. *)
Lemma frame_of_Sprintf_line idx s :
  0 ≤ idx < 2 ^ 63 → count_byte ":" s = 0%nat → has_space s = false →
  frame_of (Sprintf_line idx s) = Some (idx, s).
Proof.
  intros Hi Hc Hs. unfold Sprintf_line.
  rewrite frame_of_fields by (try apply digits_no_colon, digits_Sprintf_02d; lia || done).
  rewrite getIndexInt_Sprintf_02d by done.
  destruct (Z.ltb_spec idx 0); [lia|]. by rewrite TrimSpace_id.
Qed.

(** ** The loop of split *)

Lemma total_len_app l1 l2 : total_len (l1 ++ l2) = total_len l1 + total_len l2.
Proof. induction l1 as [|l l1 IH]; cbn; [reflexivity|]. fold (total_len (l1 ++ l2)). fold (total_len l1). lia. Qed.

Lemma len_app {A} (l1 l2 : list A) : len (l1 ++ l2) = len l1 + len l2.
Proof. unfold len. rewrite length_app. lia. Qed.

Lemma len_nonneg {A} (l : list A) : 0 ≤ len l.
Proof. unfold len. lia. Qed.

Lemma len_Sprintf_line idx s : 1 ≤ len (Sprintf_line idx s).
Proof.
  unfold Sprintf_line. rewrite len_app.
  pose proof (len_nonneg (Sprintf_02d idx)). pose proof (len_nonneg s).
  unfold len in *. cbn [length]. lia.
Qed.

Lemma length_le_total_len lines :
  Forall (λ line, 1 ≤ len line) lines → len lines ≤ total_len lines.
Proof.
  induction 1 as [|l lines Hl _ IH]; [done|].
  cbn. fold (total_len lines). unfold len in *. cbn [length]. lia.
Qed.

Lemma lines_from_long idx chunks :
  Forall (λ line, 1 ≤ len line) (lines_from idx chunks).
Proof.
  revert idx. induction chunks as [|ch chunks IH]; intros idx; cbn; constructor;
    [apply len_Sprintf_line | apply IH].
Qed.

Lemma length_lines_from idx chunks : length (lines_from idx chunks) = length chunks.
Proof. revert idx. induction chunks as [|ch chunks IH]; intros idx; cbn; [done|]. by rewrite IH. Qed.

(** What the loop of [split] returns, when it returns: the lines it had, then
    the lines of the chunks it cut the rest of the buffer into, and the count
    of their bytes. *)
Lemma split_loop_returns fuel c : ∀ idx buf result n lines total,
  split_loop fuel c idx buf result n = Ret (lines, total) →
  ∃ chunks,
    mjoin chunks = buf
    ∧ lines = result ++ lines_from idx chunks
    ∧ total = n + total_len (lines_from idx chunks).
Proof.
  induction fuel as [|fuel IH]; intros idx buf result n lines total Hr.
  - cbn in Hr. destruct (negb (len buf >? 0)) eqn:Hb; [|discriminate].
    exists []. assert (buf = []) as -> by (destruct buf; [done | unfold len in Hb; cbn in Hb; lia]).
    simplify_eq. cbn. by rewrite app_nil_r, Z.add_0_r.
  - cbn [split_loop] in Hr. destruct (negb (len buf >? 0)) eqn:Hb.
    + exists []. assert (buf = []) as -> by (destruct buf; [done | unfold len in Hb; cbn in Hb; lia]).
      simplify_eq. cbn. by rewrite app_nil_r, Z.add_0_r.
    + cbv zeta in Hr. unfold slice_to, slice_from in Hr.
      set (max := if len buf <? line_room c result then len buf else line_room c result) in Hr.
      destruct ((0 <=? max) && (max <=? len buf)); [|discriminate].
      apply IH in Hr as (chunks & Hj & -> & ->).
      exists (take (Z.to_nat max) buf :: chunks). split_and!.
      * change (take (Z.to_nat max) buf ++ mjoin chunks = buf).
        by rewrite Hj, take_drop.
      * by rewrite <- app_assoc.
      * cbn. fold (total_len (lines_from (idx + 1) chunks)). lia.
Qed.

Lemma split_returns fuel c buf lines n :
  split fuel c buf = Ret (lines, n) →
  ∃ chunks, mjoin chunks = buf ∧ lines = lines_from 0 chunks ∧ n = total_len lines.
Proof.
  intros (chunks & Hj & -> & ->)%split_loop_returns. by exists chunks.
Qed.

(** With room for five index characters and a byte of payload, every turn of
    the loop takes a byte or more off the buffer, and the loop returns. *)
Lemma line_room_ge c result : maxLineLength c - 5 ≤ line_room c result.
Proof.
  unfold line_room. change (len (str "9999:")) with 5.
  change (len (str "999:")) with 4. change (len (str "99:")) with 3.
  repeat case_match; lia.
Qed.

Lemma split_loop_terminates c : 6 ≤ maxLineLength c →
  ∀ fuel idx buf result n, (length buf ≤ fuel)%nat →
  ∃ r, split_loop fuel c idx buf result n = Ret r.
Proof.
  intros HL. induction fuel as [|fuel IH]; intros idx buf result n Hf.
  - destruct buf; [|cbn in Hf; lia]. by eexists.
  - cbn [split_loop]. destruct (negb (len buf >? 0)) eqn:Hb; [by eexists|].
    cbv zeta. unfold slice_to, slice_from.
    pose proof (line_room_ge c result).
    set (max := if len buf <? line_room c result then len buf else line_room c result).
    assert (1 ≤ max ≤ len buf) as Hm by (subst max; case_match; lia).
    destruct (Z.leb_spec 0 max); [|lia]. destruct (Z.leb_spec max (len buf)); [|lia].
    cbn. apply IH. rewrite length_drop. unfold len in *. lia.
Qed.

(** Without room for a byte of payload the loop never returns: with no room
    it adds lines with an empty payload for ever, or until the room becomes
    negative; with negative room the slice expression panics. *)
Lemma line_room_snoc c result line :
  line_room c (result ++ [line]) ≤ line_room c result.
Proof.
  unfold line_room. rewrite len_app. change (len [line]) with 1.
  change (len (str "9999:")) with 5.
  change (len (str "999:")) with 4. change (len (str "99:")) with 3.
  repeat case_match; lia.
Qed.

Lemma split_loop_stuck c : ∀ fuel idx buf result n,
  buf ≠ [] → line_room c result ≤ 0 →
  ∀ r, split_loop fuel c idx buf result n ≠ Ret r.
Proof.
  induction fuel as [|fuel IH]; intros idx buf result n Hb Hroom r;
    (destruct buf as [|b buf]; [done|]); [done|].
  cbn [split_loop]. change (negb (len (b :: buf) >? 0)) with (negb (Z.pos (Pos.of_succ_nat (length buf)) >? 0)).
  cbn [Z.gtb Z.compare negb]. cbv zeta.
  pose proof (len_nonneg (b :: buf)) as Hlen.
  destruct (Z.ltb_spec (len (b :: buf)) (line_room c result)) as [|_]; [lia|].
  unfold slice_to. destruct (Z.leb_spec 0 (line_room c result)) as [H0|]; [|done].
  assert (line_room c result = 0) as Hz by lia. rewrite Hz.
  cbn. apply IH; [done|]. etransitivity; [apply line_room_snoc | lia].
Qed.

Lemma split_loop_panics c fuel idx b buf result n :
  line_room c result < 0 →
  split_loop (S fuel) c idx (b :: buf) result n = Panic.
Proof.
  intros Hroom. cbn [split_loop].
  change (negb (len (b :: buf) >? 0)) with (negb (Z.pos (Pos.of_succ_nat (length buf)) >? 0)).
  cbn [Z.gtb Z.compare negb]. cbv zeta.
  pose proof (len_nonneg (b :: buf)) as Hlen.
  destruct (Z.ltb_spec (len (b :: buf)) (line_room c result)) as [|_]; [lia|].
  unfold slice_to. destruct (Z.leb_spec 0 (line_room c result)) as [H0|]; [lia|done].
Qed.

(** The options keep the budget within its bounds. *)
Lemma apply_in_budget opt c : in_budget c → in_budget (apply opt c).
Proof.
  unfold in_budget. destruct opt as [length|size|]; cbn; [| |done];
    intros [H1 H2]; repeat case_match; lia.
Qed.

Lemma configure_in_budget opts : in_budget (configure opts).
Proof.
  unfold configure. rewrite foldl_app.
  assert (H0 : in_budget (foldl (λ c opt, apply opt c)
                            {| maxSize := 0; maxLineLength := 0 |}
                            [WithMaxSize 0; WithMaxLineLength 0]))
    by (unfold in_budget; cbn; lia).
  revert H0.
  generalize (foldl (λ c opt, apply opt c) {| maxSize := 0; maxLineLength := 0 |}
                [WithMaxSize 0; WithMaxLineLength 0]).
  induction opts as [|opt opts IH]; intros c Hc; [done|].
  cbn. by apply IH, apply_in_budget.
Qed.

Lemma CreateRecord_split fuel jwt opts :
  CreateRecord fuel jwt opts
  = match split fuel (configure opts) jwt with
    | Ret (lines, n) =>
        if n >? maxSize (configure opts) then Ret ([], Some ErrInvalidInput)
        else Ret (lines, None)
    | Panic => Panic
    | NoFuel => NoFuel
    end.
Proof.
  unfold CreateRecord. cbv zeta.
  destruct (split fuel (configure opts) jwt) as [[lines n]| |]; reflexivity.
Qed.

Lemma plain_app a b : plain (a ++ b) → plain a ∧ plain b.
Proof.
  unfold plain. rewrite count_byte_app. intros [Hc Hs].
  apply has_space_app in Hs as [? ?]. repeat split; (lia || done).
Qed.

Lemma plain_mjoin chunks : plain (mjoin chunks) → Forall plain chunks.
Proof.
  induction chunks as [|ch chunks IH]; [constructor|].
  change (mjoin (ch :: chunks)) with (ch ++ mjoin chunks).
  intros [? ?]%plain_app. constructor; auto.
Qed.

(** The decoder reads the lines of the encoder back as the chunks at the
    indices [idx], [idx + 1], ..., when the chunks have no colon and no white
    space and the indices fit an [int]. *)
Lemma indexed_cons base p ps :
  indexed base (p :: ps) = (base, p) :: indexed (base + 1) ps.
Proof.
  unfold indexed. rewrite seqZ_cons by (unfold len; cbn [length]; lia).
  cbn. do 3 f_equal. unfold len. cbn [length]. lia.
Qed.

Lemma frames_lines_from chunks : ∀ idx,
  0 ≤ idx → idx + len chunks ≤ 2 ^ 63 → Forall plain chunks →
  omap frame_of (lines_from idx chunks) = indexed idx chunks.
Proof.
  induction chunks as [|ch chunks IH]; intros idx H0 Hmax Hp; [reflexivity|].
  apply Forall_cons in Hp as [[Hc Hs] Hp].
  assert (len (ch :: chunks) = 1 + len chunks) as Hl by (unfold len; cbn [length]; lia).
  pose proof (len_nonneg chunks).
  rewrite indexed_cons. cbn [lines_from omap list_omap].
  rewrite frame_of_Sprintf_line by (lia || done).
  f_equal. apply IH; (lia || done).
Qed.

(** * The properties of the codec *)

(** ** Round trip *)

(** C1, as stated, fails: a payload with a colon is encoded into a line the
    decoder skips. *)
Lemma roundtrip_counterexample :
  ∃ lines,
    CreateRecord 1 (str "a:b") [] = Ret (lines, None)
    ∧ reassemble lines = Ret []
    ∧ reassemble lines ≠ Ret (str "a:b").
Proof. exists [str "00:a:b"]. vm_compute. repeat split; discriminate. Qed.

(** White space at the edge of a chunk is lost as well. *)
Example roundtrip_white_space :
  CreateRecord 1 (str " a") [] = Ret ([str "00: a"], None)
  ∧ reassemble [str "00: a"] = Ret (str "a").
Proof. vm_compute. split; reflexivity. Qed.

(** C1 (amended): for every string [s] with no colon and no white-space
    character and every budget, whenever [CreateRecord] returns lines for [s],
    [reassemble] of these lines is [s]; and [CreateRecord] does return (lines
    or the invalid-input error) whenever the line length is 6 or more. *)
Theorem roundtrip (s : gostring) (opts : list CreateOption) :
  plain s →
  (6 ≤ maxLineLength (configure opts) →
   ∃ r, CreateRecord (length s) s opts = Ret r)
  ∧ ∀ fuel lines,
      CreateRecord fuel s opts = Ret (lines, None) → reassemble lines = Ret s.
Proof.
  intros Hs. split.
  - intros HL. rewrite CreateRecord_split.
    destruct (split_loop_terminates _ HL (length s) 0 s [] 0 (le_n _)) as [[lines n] Hr].
    unfold split. rewrite Hr. case_match; by eexists.
  - intros fuel lines Hr. rewrite CreateRecord_split in Hr.
    destruct (split fuel (configure opts) s) as [[lines' n]| |] eqn:Hsp; [|done..].
    destruct (Z.gtb_spec n (maxSize (configure opts))) as [|Hn]; [done|].
    simplify_eq.
    apply split_returns in Hsp as (chunks & Hj & -> & Hn').
    pose proof (length_le_total_len _ (lines_from_long 0 chunks)) as Hlen.
    destruct (configure_in_budget opts) as [Hmax _].
    assert (len chunks ≤ 65270) as Hc.
    { unfold len in *. rewrite length_lines_from in Hlen. lia. }
    rewrite <- Hj.
    apply (reassemble_contiguous _ 0); [by left|].
    rewrite frames_lines_from; [done | lia | lia |].
    apply plain_mjoin. by rewrite Hj.
Qed.

Lemma roundtrip_witness :
  plain (str "header.payload.signature")
  ∧ reassemble [str "00:header."; str "01:payload"; str "02:.signat"; str "03:ure"]
    = Ret (str "header.payload.signature").
Proof.
  assert (Hp : plain (str "header.payload.signature")) by (split; reflexivity).
  split; [exact Hp|].
  apply (proj2 (roundtrip (str "header.payload.signature") [WithMaxLineLength 10] Hp) 5%nat).
  vm_compute. reflexivity.
Defined.

(** ** Missing chunks *)

(** C2, as stated, fails: without its first frame a record of two frames
    still reassembles, to the payload of the other frame; the same holds
    without its last frame. *)
Lemma missing_chunk_counterexample :
  ∃ lines,
    CreateRecord 2 (str "ab") [WithMaxLineLength 4] = Ret (lines, None)
    ∧ reassemble (delete 0%nat lines) = Ret (str "b")
    ∧ reassemble (delete 1%nat lines) = Ret (str "a")
    ∧ str "b" ≠ [] ∧ str "a" ≠ [].
Proof. exists [str "00:a"; str "01:b"]. vm_compute. repeat split; discriminate. Qed.

(** C2 (amended): in a chunk set indexed contiguously from 0, removing a
    frame whose index is neither 0 nor the highest makes [reassemble] return
    the empty string. *)
Theorem missing_middle_chunk (l1 l2 : list gostring) (line : gostring)
    (ps : list gostring) (k : Z) (p : gostring) :
  omap frame_of (l1 ++ line :: l2) ≡ₚ indexed 0 ps →
  frame_of line = Some (k, p) →
  0 < k < len ps - 1 →
  reassemble (l1 ++ l2) = Ret [].
Proof.
  intros Hp Hline Hk.
  rewrite omap_app in Hp. cbn in Hp. rewrite Hline in Hp.
  rewrite <- Permutation_middle in Hp.
  set (frames := omap frame_of l1 ++ omap frame_of l2) in Hp.
  pose proof (NoDup_indexed 0 ps) as Hnd. rewrite <- Hp in Hnd.
  cbn in Hnd. apply NoDup_cons in Hnd as [Hnk Hnd].
  assert (Hlen : len frames = len ps - 1).
  { apply Permutation_length in Hp. rewrite length_indexed in Hp.
    unfold len. cbn in Hp. lia. }
  assert (H0 : 0 ∈ frames.*1).
  { assert (0 ∈ ((k, p) :: frames).*1) as Hin.
    { rewrite Hp, fst_indexed. apply elem_of_seqZ. lia. }
    cbn in Hin. apply elem_of_cons in Hin as [?|?]; [lia | done]. }
  rewrite reassemble_parts_of. f_equal.
  assert (Hparts : parts_of (l1 ++ l2) = list_to_map (reverse frames)).
  { unfold parts_of. rewrite omap_app. fold frames. rewrite foldl_store_union.
    apply seed_absorbed. apply not_eq_None_Some. intros Hn.
    apply not_elem_of_list_to_map in Hn. apply Hn.
    by rewrite fmap_reverse, elem_of_reverse. }
  rewrite Hparts.
  apply (reassemble_join_missing _ _ 0 [] k).
  - apply not_elem_of_list_to_map. by rewrite fmap_reverse, elem_of_reverse.
  - rewrite map_size_list_to_map by (by rewrite fmap_reverse, reverse_Permutation).
    rewrite length_reverse. unfold len in *. lia.
Qed.

Lemma missing_middle_chunk_witness :
  omap frame_of ([str "00:a"] ++ str "01:b" :: [str "02:c"])
    ≡ₚ indexed 0 [str "a"; str "b"; str "c"]
  ∧ frame_of (str "01:b") = Some (1, str "b")
  ∧ 0 < 1 < len [str "a"; str "b"; str "c"] - 1
  ∧ reassemble ([str "00:a"] ++ [str "02:c"]) = Ret [].
Proof.
  assert (H1 : omap frame_of ([str "00:a"] ++ str "01:b" :: [str "02:c"])
               ≡ₚ indexed 0 [str "a"; str "b"; str "c"])
    by (vm_compute; reflexivity).
  assert (H2 : frame_of (str "01:b") = Some (1, str "b")) by reflexivity.
  assert (H3 : 0 < 1 < len [str "a"; str "b"; str "c"] - 1) by (vm_compute; done).
  exact (conj H1 (conj H2 (conj H3 (missing_middle_chunk _ _ _ _ _ _ H1 H2 H3)))).
Defined.

(** ** The order of the lines *)

(** C3, as stated, fails: of two lines with the same index the later one
    wins, so their order shows in the result. *)
Lemma reassemble_order_counterexample :
  [str "0:a"; str "0:b"] ≡ₚ [str "0:b"; str "0:a"]
  ∧ reassemble [str "0:a"; str "0:b"] = Ret (str "b")
  ∧ reassemble [str "0:b"; str "0:a"] = Ret (str "a")
  ∧ str "b" ≠ str "a".
Proof.
  split; [apply perm_swap|]. vm_compute. repeat split; discriminate.
Qed.

(** C3 (amended): for every list of lines in which the lines the decoder
    keeps give every index one payload only, [reassemble] returns the same
    string for every permutation of the list. *)
Theorem reassemble_Permutation (lines lines' : list gostring) :
  lines ≡ₚ lines' →
  functional (omap frame_of lines) →
  reassemble lines' = reassemble lines.
Proof.
  intros Hp Hf. rewrite !reassemble_parts_of.
  by rewrite (parts_of_Permutation _ _ Hp Hf).
Qed.

Lemma reassemble_Permutation_witness :
  [str "00:header"; str "01:.payload."; str "02:signature"]
    ≡ₚ [str "02:signature"; str "00:header"; str "01:.payload."]
  ∧ functional (omap frame_of [str "00:header"; str "01:.payload."; str "02:signature"])
  ∧ reassemble [str "02:signature"; str "00:header"; str "01:.payload."]
    = reassemble [str "00:header"; str "01:.payload."; str "02:signature"].
Proof.
  assert (H1 : [str "00:header"; str "01:.payload."; str "02:signature"]
               ≡ₚ [str "02:signature"; str "00:header"; str "01:.payload."]).
  { etransitivity; [|apply perm_swap]. apply perm_skip, perm_swap. }
  assert (H2 : functional (omap frame_of
                 [str "00:header"; str "01:.payload."; str "02:signature"])).
  { intros i p q Hp Hq. vm_compute in Hp, Hq.
    repeat (apply elem_of_cons in Hp as [Hp|Hp]);
      repeat (apply elem_of_cons in Hq as [Hq|Hq]);
      try (by apply elem_of_nil in Hp); try (by apply elem_of_nil in Hq);
      congruence. }
  exact (conj H1 (conj H2 (reassemble_Permutation _ _ H1 H2))).
Defined.

(** ** The loop of the encoder *)

(** C4: the claim does not hold of the code.  With a line length of 1 or 2
    the first slice expression of [split] has a negative bound and panics on
    every payload that is not empty; with a line length of 3 the loop makes no
    progress and never returns. *)
Theorem CreateRecord_short_lines (b : ascii) (rest : gostring) (fuel : nat) :
  CreateRecord (S fuel) (b :: rest) [WithMaxLineLength 1] = Panic
  ∧ CreateRecord (S fuel) (b :: rest) [WithMaxLineLength 2] = Panic
  ∧ ∀ r, CreateRecord fuel (b :: rest) [WithMaxLineLength 3] ≠ Ret r.
Proof.
  split_and!.
  - rewrite CreateRecord_split. unfold split. by rewrite split_loop_panics.
  - rewrite CreateRecord_split. unfold split. by rewrite split_loop_panics.
  - intros r. rewrite CreateRecord_split.
    destruct (split fuel (configure [WithMaxLineLength 3]) (b :: rest))
      as [[lines n]| |] eqn:Hs; [|done..].
    by apply split_loop_stuck in Hs.
Qed.

(** The same on the one-byte payload ["a"]: a panic in the first turn with
    a line length of 1; with a line length of 3, a hundred lines with an empty
    payload and then a panic. *)
Example CreateRecord_line_length_1 :
  CreateRecord 1 (str "a") [WithMaxLineLength 1] = Panic.
Proof. reflexivity. Qed.

Example CreateRecord_line_length_3 :
  CreateRecord 100 (str "a") [WithMaxLineLength 3] = NoFuel
  ∧ CreateRecord 101 (str "a") [WithMaxLineLength 3] = Panic.
Proof. vm_compute. split; reflexivity. Qed.

(** With a line length of 5 and a payload of 1101 bytes the loop is still
    running after 2000 turns, having stored 900 lines with an empty
    payload. *)
Example CreateRecord_line_length_5 :
  CreateRecord 2000 (repeat "a"%char 1101) [WithMaxLineLength 5] = NoFuel.
Proof. vm_compute. reflexivity. Qed.

(** ** The size budget *)

(** C5: whenever [split] returns its lines and their byte count [n],
    [CreateRecord] fails with the invalid-input error exactly when the sum of
    the lengths of the lines exceeds [maxSize], and then returns no line;
    otherwise it returns all the lines, which encode the whole payload, and
    their total length is at most [maxSize].  [split] does return when the
    line length is 6 or more. *)
Theorem CreateRecord_budget (jwt : gostring) (opts : list CreateOption) :
  (6 ≤ maxLineLength (configure opts) →
   ∃ lines n, split (length jwt) (configure opts) jwt = Ret (lines, n))
  ∧ ∀ fuel lines n,
      split fuel (configure opts) jwt = Ret (lines, n) →
      n = total_len lines
      ∧ (∃ chunks, mjoin chunks = jwt ∧ lines = lines_from 0 chunks)
      ∧ ((∃ out, CreateRecord fuel jwt opts = Ret (out, Some ErrInvalidInput))
         ↔ maxSize (configure opts) < total_len lines)
      ∧ (maxSize (configure opts) < total_len lines →
         CreateRecord fuel jwt opts = Ret ([], Some ErrInvalidInput))
      ∧ (total_len lines ≤ maxSize (configure opts) →
         CreateRecord fuel jwt opts = Ret (lines, None)).
Proof.
  split.
  - intros HL.
    destruct (split_loop_terminates _ HL (length jwt) 0 jwt [] 0 (le_n _))
      as [[lines n] Hr].
    by exists lines, n.
  - intros fuel lines n Hs.
    rewrite CreateRecord_split, Hs.
    destruct (split_returns _ _ _ _ _ Hs) as (chunks & Hj & Hl & ->).
    split_and!; [done | by exists chunks | ..].
    + destruct (Z.gtb_spec (total_len lines) (maxSize (configure opts))).
      * split; [done | by eexists].
      * split; [by intros [out ?] | lia].
    + intros H. destruct (Z.gtb_spec (total_len lines) (maxSize (configure opts))); [done | lia].
    + intros H. destruct (Z.gtb_spec (total_len lines) (maxSize (configure opts))); [lia | done].
Qed.

Lemma CreateRecord_budget_witness :
  split 5 (configure [WithMaxLineLength 10; WithMaxSize 30]) (str "header.payload.signature")
  = Ret ([str "00:header."; str "01:payload"; str "02:.signat"; str "03:ure"], 36)
  ∧ maxSize (configure [WithMaxLineLength 10; WithMaxSize 30])
    < total_len [str "00:header."; str "01:payload"; str "02:.signat"; str "03:ure"]
  ∧ CreateRecord 5 (str "header.payload.signature") [WithMaxLineLength 10; WithMaxSize 30]
    = Ret ([], Some ErrInvalidInput).
Proof.
  assert (H1 : split 5 (configure [WithMaxLineLength 10; WithMaxSize 30])
                 (str "header.payload.signature")
               = Ret ([str "00:header."; str "01:payload"; str "02:.signat"; str "03:ure"], 36))
    by (vm_compute; reflexivity).
  assert (H2 : maxSize (configure [WithMaxLineLength 10; WithMaxSize 30])
               < total_len [str "00:header."; str "01:payload"; str "02:.signat"; str "03:ure"])
    by (vm_compute; reflexivity).
  exact (conj H1 (conj H2
    (proj1 (proj2 (proj2 (proj2 (proj2 (CreateRecord_budget _ _) 5%nat _ _ H1)))) H2))).
Defined.

(** ** The index base *)

(** C6: a chunk set whose frames carry the payloads [ps] at the indices
    0 .. n-1, and one whose frames carry them at the indices 1 .. n, both
    reassemble to the concatenation of the payloads in index order, whatever
    the order of the lines. *)
Theorem index_base_tolerance (lines : list gostring) (ps : list gostring) :
  (omap frame_of lines ≡ₚ indexed 0 ps → reassemble lines = Ret (mjoin ps))
  ∧ (omap frame_of lines ≡ₚ indexed 1 ps → reassemble lines = Ret (mjoin ps)).
Proof.
  split; intros Hp.
  - apply (reassemble_contiguous _ 0); [by left | done].
  - apply (reassemble_contiguous _ 1); [by right | done].
Qed.

Lemma index_base_tolerance_witness :
  (omap frame_of [str "01:.payload."; str "00:header"; str "02:signature"]
     ≡ₚ indexed 0 [str "header"; str ".payload."; str "signature"]
   ∧ reassemble [str "01:.payload."; str "00:header"; str "02:signature"]
     = Ret (mjoin [str "header"; str ".payload."; str "signature"]))
  ∧ (omap frame_of [str "01:header"; str "02:.payload."; str "03:signature"]
       ≡ₚ indexed 1 [str "header"; str ".payload."; str "signature"]
     ∧ reassemble [str "01:header"; str "02:.payload."; str "03:signature"]
       = Ret (mjoin [str "header"; str ".payload."; str "signature"])).
Proof.
  assert (H0 : omap frame_of [str "01:.payload."; str "00:header"; str "02:signature"]
               ≡ₚ indexed 0 [str "header"; str ".payload."; str "signature"])
    by (vm_compute; apply perm_swap).
  assert (H1 : omap frame_of [str "01:header"; str "02:.payload."; str "03:signature"]
               ≡ₚ indexed 1 [str "header"; str ".payload."; str "signature"])
    by (vm_compute; reflexivity).
  exact (conj (conj H0 (proj1 (index_base_tolerance _ _) H0))
              (conj H1 (proj2 (index_base_tolerance _ _) H1))).
Defined.

(** ** Malformed lines *)

(** C7: adding lines with no colon, with two colons or more, or with an
    index field that is not a number to a list of lines changes nothing in
    what [reassemble] returns; when the frames of the list are the payloads
    [ps] at contiguous indices from 0 or from 1, the result is still the
    concatenation of [ps]. *)
Theorem malformed_lines_ignored (lines lines' : list gostring) :
  adds_malformed lines lines' →
  reassemble lines' = reassemble lines
  ∧ ∀ base ps,
      base = 0 ∨ base = 1 →
      omap frame_of lines ≡ₚ indexed base ps →
      reassemble lines' = Ret (mjoin ps).
Proof.
  intros Ha. pose proof (frames_adds_malformed _ _ Ha) as Hf. split.
  - rewrite !reassemble_parts_of. unfold parts_of. by rewrite Hf.
  - intros base ps Hb Hp. apply (reassemble_contiguous _ base); [done|].
    by rewrite Hf.
Qed.

Lemma malformed_lines_ignored_witness :
  adds_malformed
    [str "00:header"; str "01:.payload."; str "02:signature"]
    [str "00:header"; str "01payload"; str "01:.payload."; str "01:p:ayload";
     str "02:signature"; str "xx:payload"]
  ∧ reassemble
      [str "00:header"; str "01payload"; str "01:.payload."; str "01:p:ayload";
       str "02:signature"; str "xx:payload"]
    = Ret (mjoin [str "header"; str ".payload."; str "signature"]).
Proof.
  assert (Ha : adds_malformed
    [str "00:header"; str "01:.payload."; str "02:signature"]
    [str "00:header"; str "01payload"; str "01:.payload."; str "01:p:ayload";
     str "02:signature"; str "xx:payload"]).
  { apply adds_keep.
    apply adds_junk; [by apply malformed_no_colon|].
    apply adds_keep.
    apply adds_junk; [apply malformed_colons; vm_compute; lia|].
    apply adds_keep.
    apply adds_junk; [|apply adds_nil].
    apply (malformed_index _ (str "xx") (str "payload")); [reflexivity|].
    exists "x"%char. split; [vm_compute; left | reflexivity]. }
  split; [exact Ha|].
  apply (proj2 (malformed_lines_ignored _ _ Ha) 0); [by left|].
  vm_compute. reflexivity.
Defined.

(** ** Totality of the decoder *)

(** C8: on every list of lines [reassemble] returns a string: no index or
    slice expression of it panics and both loops end.  The string is empty
    when an index below the size of the map it built has no payload. *)
Theorem reassemble_total (lines : list gostring) :
  ∃ parts s,
    reassemble_lines {[ 0 := [] ]} lines = Ret parts
    ∧ reassemble lines = Ret s
    ∧ ((∃ i, 0 ≤ i < Z.of_nat (size parts) ∧ parts !! i = None) → s = []).
Proof.
  exists (parts_of lines), (reassemble_join (parts_of lines) (size (parts_of lines)) 0 []).
  split_and!.
  - apply reassemble_lines_frames.
  - apply reassemble_parts_of.
  - intros (i & Hi & Hn). apply (reassemble_join_missing _ _ _ _ i); [done | lia].
Qed.

Lemma reassemble_total_witness :
  reassemble [str "00:header"; str "02:signature"] = Ret [].
Proof.
  destruct (reassemble_total [str "00:header"; str "02:signature"])
    as (parts & s & Hparts & -> & Hempty).
  f_equal. apply Hempty. exists 1.
  vm_compute in Hparts. injection Hparts as <-.
  split; [vm_compute; split; [discriminate | reflexivity] | reflexivity].
Defined.

(** ** An empty index field *)

(** C10: a line with exactly one colon whose index field is empty or white
    space only is not skipped: its index is read as 0 and its trimmed payload
    is stored at index 0, in place of whatever the map held there. *)
Theorem empty_index_is_zero (parts : gmap Z gostring) (idx payload : gostring) :
  white_space idx →
  count_byte ":" (idx ++ ":"%char :: payload) = 1%nat →
  getIndexInt idx = 0
  ∧ reassemble_line parts (idx ++ ":"%char :: payload)
    = Ret (<[0 := TrimSpace payload]> parts)
  ∧ (<[0 := TrimSpace payload]> parts) !! 0 = Some (TrimSpace payload).
Proof.
  intros Hw Hc. rewrite count_byte_app in Hc. cbn in Hc.
  assert (Hi : getIndexInt idx = 0).
  { unfold getIndexInt. by rewrite TrimSpace_white_space. }
  split_and!; [done | | apply lookup_insert_eq].
  rewrite reassemble_line_frame, frame_of_fields by lia.
  by rewrite Hi.
Qed.

Lemma empty_index_is_zero_witness :
  white_space (str "  ")
  ∧ count_byte ":" (str "  " ++ ":"%char :: str "payload") = 1%nat
  ∧ reassemble_line {[ 0 := str "header" ]} (str "  " ++ ":"%char :: str "payload")
    = Ret (<[0 := TrimSpace (str "payload")]> {[ 0 := str "header" ]}).
Proof.
  assert (Hw : white_space (str "  ")) by (repeat constructor).
  assert (Hc : count_byte ":" (str "  " ++ ":"%char :: str "payload") = 1%nat)
    by reflexivity.
  exact (conj Hw (conj Hc
    (proj1 (proj2 (empty_index_is_zero {[ 0 := str "header" ]} _ _ Hw Hc))))).
Defined.

Example reassemble_empty_index :
  reassemble [str "0:header"; str ":payload"] = Ret (str "payload")
  ∧ reassemble [str "  :payload"; str "1:.signature"] = Ret (str "payload.signature").
Proof. vm_compute. split; reflexivity. Qed.


(** * Further properties of the code *)

(** ** The index parser *)

Lemma int_wrap_mod x : int_wrap x mod 2 ^ 64 = x mod 2 ^ 64.
Proof.
  unfold int_wrap.
  rewrite <- Zminus_mod_idemp_l, Z.mod_mod by lia.
  rewrite Zminus_mod_idemp_l. f_equal. lia.
Qed.

Lemma int_wrap_congr x y : x mod 2 ^ 64 = y mod 2 ^ 64 → int_wrap x = int_wrap y.
Proof.
  intros H. unfold int_wrap. f_equal.
  rewrite <- (Zplus_mod_idemp_l x), <- (Zplus_mod_idemp_l y). by rewrite H.
Qed.

Lemma getIndexInt_loop_digits s : ∀ n,
  digits s →
  getIndexInt_loop s (int_wrap n)
  = int_wrap (foldl (λ n c, n * 10 + (byteZ c - byteZ "0")) n s).
Proof.
  induction s as [|c s IH]; intros n Hd; [reflexivity|].
  apply Forall_cons in Hd as [Hc Hd].
  cbn [getIndexInt_loop foldl]. rewrite Hc, <- IH by done. f_equal.
  apply int_wrap_congr.
  rewrite <- Zplus_mod_idemp_l, <- Zmult_mod_idemp_l, int_wrap_mod.
  by rewrite Zmult_mod_idemp_l, Zplus_mod_idemp_l.
Qed.

Lemma digits_forallb s : forallb isDigit s = true ↔ digits s.
Proof.
  unfold digits. rewrite forallb_forall, Forall_forall.
  split; intros H c Hc; apply H; by apply list_elem_of_In.
Qed.

(** X1: [getIndexInt] trims its argument; when only decimal digits are left
    it returns their decimal value wrapped around to 64 bits (0 for no digit
    at all), and otherwise it returns -1. *)
Theorem getIndexInt_value (s : gostring) :
  getIndexInt s
  = if forallb isDigit (TrimSpace s)
    then int_wrap (decimal_value (TrimSpace s))
    else -1.
Proof.
  unfold getIndexInt, decimal_value.
  destruct (forallb isDigit (TrimSpace s)) eqn:Hd.
  - apply digits_forallb in Hd.
    by rewrite <- (getIndexInt_loop_digits _ 0 Hd).
  - apply getIndexInt_loop_non_digit.
    induction (TrimSpace s) as [|c t IH]; [discriminate|].
    cbn in Hd. destruct (isDigit c) eqn:Hc.
    + destruct (IH Hd) as (d & Hin & Hnd). exists d. split; [by right | done].
    + exists c. split; [by left | done].
Qed.

(** An index of twenty digits wraps around: 2^64 is read as 0, and the line
    takes the place of chunk 0. *)
Example getIndexInt_wraps :
  getIndexInt (str "18446744073709551616") = 0
  ∧ reassemble [str "0:header"; str "18446744073709551616:payload"]
    = Ret (str "payload").
Proof. vm_compute. split; reflexivity. Qed.

(** ** The lines split cuts *)

Lemma line_room_room c result : line_room c result = room c (len result).
Proof. reflexivity. Qed.

Lemma chunks_fit_nonempty c k chunks :
  chunks_fit c k chunks → chunks ≠ [] → mjoin chunks ≠ [].
Proof.
  destruct chunks as [|ch chunks]; [done|]. intros ([H _] & _) _.
  change (mjoin (ch :: chunks)) with (ch ++ mjoin chunks).
  destruct ch; [unfold len in H; cbn in H; lia | done].
Qed.

(** When the loop of [split] returns, the chunks it has cut fit the lines. *)
Lemma split_loop_fit fuel c : ∀ idx buf result n lines total,
  split_loop fuel c idx buf result n = Ret (lines, total) →
  ∃ chunks,
    mjoin chunks = buf
    ∧ lines = result ++ lines_from idx chunks
    ∧ chunks_fit c (len result) chunks.
Proof.
  induction fuel as [|fuel IH]; intros idx buf result n lines total Hr.
  - cbn in Hr. destruct (negb (len buf >? 0)) eqn:Hb; [|discriminate].
    exists []. assert (buf = []) as -> by (destruct buf; [done | unfold len in Hb; cbn in Hb; lia]).
    simplify_eq. by rewrite app_nil_r.
  - cbn [split_loop] in Hr. destruct (negb (len buf >? 0)) eqn:Hb.
    + exists []. assert (buf = []) as -> by (destruct buf; [done | unfold len in Hb; cbn in Hb; lia]).
      simplify_eq. by rewrite app_nil_r.
    + cbv zeta in Hr. unfold slice_to, slice_from in Hr.
      rewrite line_room_room in Hr.
      set (max := if len buf <? room c (len result) then len buf else room c (len result)) in Hr.
      destruct (Z.leb_spec 0 max) as [H0|]; [|discriminate].
      destruct (Z.leb_spec max (len buf)) as [H1|]; [|discriminate].
      cbn in Hr.
      assert (buf ≠ []) as Hne by (intros ->; discriminate Hb).
      assert (0 < len buf) as Hlen by (destruct buf; [done | unfold len; cbn; lia]).
      destruct (decide (max = 0)) as [Hz|Hz].
      { exfalso. rewrite Hz in Hr. cbn in Hr.
        revert Hr. apply split_loop_stuck; [done|].
        etransitivity; [apply line_room_snoc|]. rewrite line_room_room.
        subst max. destruct (Z.ltb_spec (len buf) (room c (len result))); lia. }
      apply IH in Hr as (chunks & Hj & -> & Hfit).
      exists (take (Z.to_nat max) buf :: chunks). split_and!.
      * change (take (Z.to_nat max) buf ++ mjoin chunks = buf).
        by rewrite Hj, take_drop.
      * by rewrite <- app_assoc.
      * rewrite len_app in Hfit. change (len [_]) with 1 in Hfit.
        assert (len (take (Z.to_nat max) buf) = max) as Htake.
        { unfold len in *. rewrite length_take. lia. }
        cbn [chunks_fit]. rewrite Htake. split_and!; [lia | | | done].
        -- subst max. destruct (Z.ltb_spec (len buf) (room c (len result))); lia.
        -- intros Hc. pose proof (chunks_fit_nonempty _ _ _ Hfit Hc) as Hd.
           rewrite Hj in Hd.
           assert (Z.to_nat max < length buf)%nat.
           { destruct (decide (Z.to_nat max < length buf)%nat); [done|].
             rewrite drop_ge in Hd by lia. done. }
           subst max. unfold len in *.
           destruct (Z.ltb_spec (Z.of_nat (length buf)) (room c (Z.of_nat (length result)))); lia.
Qed.

(** X2: whenever [split] returns, the payloads of its lines are the buffer
    cut into chunks that fit the lines: no line has an empty payload, no
    payload is longer than the room of its line, and every payload but the
    last fills the room. *)
Theorem split_chunks_fit (fuel : nat) (c : create) (buf : gostring)
    (lines : list gostring) (n : Z) :
  split fuel c buf = Ret (lines, n) →
  ∃ chunks,
    mjoin chunks = buf ∧ lines = lines_from 0 chunks ∧ chunks_fit c 0 chunks.
Proof. intros Hs. by apply split_loop_fit in Hs. Qed.

Lemma split_chunks_fit_witness :
  split 5 {| maxSize := 100; maxLineLength := 10 |} (str "header.payload.signature")
  = Ret ([str "00:header."; str "01:payload"; str "02:.signat"; str "03:ure"], 36)
  ∧ ∃ chunks,
      mjoin chunks = str "header.payload.signature"
      ∧ [str "00:header."; str "01:payload"; str "02:.signat"; str "03:ure"]
        = lines_from 0 chunks
      ∧ chunks_fit {| maxSize := 100; maxLineLength := 10 |} 0 chunks.
Proof.
  assert (H : split 5 {| maxSize := 100; maxLineLength := 10 |}
                (str "header.payload.signature")
              = Ret ([str "00:header."; str "01:payload"; str "02:.signat"; str "03:ure"], 36))
    by (vm_compute; reflexivity).
  exact (conj H (split_chunks_fit _ _ _ _ _ H)).
Defined.

(** X3: an empty token gives no line and no error, whatever the options. *)
Theorem CreateRecord_empty_token (fuel : nat) (opts : list CreateOption) :
  CreateRecord fuel [] opts = Ret ([], None).
Proof.
  rewrite CreateRecord_split. unfold split.
  assert (split_loop fuel (configure opts) 0 [] [] 0 = Ret ([], 0)) as ->
    by (by destruct fuel).
  destruct (configure_in_budget opts) as [Hs _].
  destruct (Z.gtb_spec 0 (maxSize (configure opts))); [lia | done].
Qed.

(** The decimal numeral of [n] has as many digits as [n] needs, so the index
    of a line below 10000 is printed with the characters the loop reserves
    for it. *)
Lemma of_uint_acc_bounds d : ∀ acc,
  (acc * 10 ^ Unsigned.usize d ≤ Nat.of_uint_acc d acc
   ∧ Nat.of_uint_acc d acc < (acc + 1) * 10 ^ Unsigned.usize d)%nat.
Proof.
  induction d as [|d IH|d IH|d IH|d IH|d IH|d IH|d IH|d IH|d IH|d IH]; intros acc;
    cbn [Nat.of_uint_acc Unsigned.usize]; [cbn; lia|..];
    rewrite Nat.tail_mul_spec, Nat.pow_succ_r';
    match goal with
    | |- context [Nat.of_uint_acc d ?a] => specialize (IH a)
    end;
    nia.
Qed.

Lemma length_string_of_uint d :
  length (str (NilEmpty.string_of_uint d)) = Unsigned.usize d.
Proof. unfold str. induction d; cbn; [done|..]; by f_equal. Qed.

Lemma unorm_shape d :
  Decimal.unorm d = Decimal.D0 Decimal.Nil ∨ nonzero_head (Decimal.unorm d).
Proof. induction d; cbn; auto. Qed.

Lemma nonzero_head_bounds d :
  nonzero_head d →
  (10 ^ (Unsigned.usize d - 1) ≤ Nat.of_uint d < 10 ^ Unsigned.usize d)%nat.
Proof.
  unfold Nat.of_uint.
  destruct d as [|d|d|d|d|d|d|d|d|d|d]; try done; intros _;
    cbn [Nat.of_uint_acc Unsigned.usize]; rewrite Nat.tail_mul_spec;
    match goal with
    | |- context [Nat.of_uint_acc d ?a] => pose proof (of_uint_acc_bounds d a)
    end;
    rewrite Nat.pow_succ_r', Nat.sub_succ, Nat.sub_0_r; cbn [Nat.mul] in *; lia.
Qed.

Lemma len_itoa (n : Z) (j : nat) :
  (10 ^ j ≤ Z.to_nat n < 10 ^ S j)%nat → len (itoa n) = Z.of_nat (S j).
Proof.
  intros Hn. unfold itoa, len.
  pose proof (Unsigned.of_to (Z.to_nat n)) as Hof.
  pose proof (Unsigned.to_of (Nat.to_uint (Z.to_nat n))) as Hto.
  rewrite Hof in Hto.
  assert (0 < 10 ^ j)%nat by (apply Nat.neq_0_lt_0, Nat.pow_nonzero; lia).
  destruct (unorm_shape (Nat.to_uint (Z.to_nat n))) as [Hz|Hnz]; rewrite <- Hto in *.
  - rewrite Hz in Hof. cbn in Hof. lia.
  - apply nonzero_head_bounds in Hnz. rewrite Hof in Hnz.
    assert (Unsigned.usize (Nat.to_uint (Z.to_nat n)) = S j) as Hj.
    { set (m := Unsigned.usize (Nat.to_uint (Z.to_nat n))) in *.
      assert (m - 1 < S j)%nat by (apply (Nat.pow_lt_mono_r_iff 10); lia).
      assert (j < m)%nat by (apply (Nat.pow_lt_mono_r_iff 10); lia).
      lia. }
    unfold NilZero.string_of_uint.
    destruct (Nat.to_uint (Z.to_nat n)) eqn:E; [done|..];
      rewrite <- E, length_string_of_uint, E, Hj; done.
Qed.

Lemma len_Sprintf_02d k :
  0 ≤ k < 10000 → len (Sprintf_02d k) = index_width k.
Proof.
  intros Hk. unfold Sprintf_02d, index_width.
  destruct (Z.ltb_spec k 0); [lia|]. cbv zeta.
  destruct (decide (k = 0)) as [->|]; [reflexivity|].
  destruct (Z.gtb_spec k 999); [|destruct (Z.gtb_spec k 99); [|destruct (decide (k < 10))]].
  - assert (len (itoa k) = 4) as Hl by (apply (len_itoa k 3); cbn; lia).
    by rewrite Hl.
  - assert (len (itoa k) = 3) as Hl by (apply (len_itoa k 2); cbn; lia).
    by rewrite Hl.
  - assert (len (itoa k) = 1) as Hl by (apply (len_itoa k 0); cbn; lia).
    rewrite Hl. change (1 <? 2) with true. cbv iota.
    unfold len in *. cbn [length]. lia.
  - assert (len (itoa k) = 2) as Hl by (apply (len_itoa k 1); cbn; lia).
    by rewrite Hl.
Qed.

Lemma room_width c k : room c k = maxLineLength c - index_width k - 1.
Proof. unfold room, index_width. repeat case_match; lia. Qed.

Lemma len_Sprintf_line_eq k chunk :
  len (Sprintf_line k chunk) = len (Sprintf_02d k) + 1 + len chunk.
Proof. unfold Sprintf_line. rewrite len_app. unfold len. cbn [length]. lia. Qed.

Lemma lines_from_lengths c chunks : ∀ k,
  0 ≤ k → k + len chunks ≤ 10000 → chunks_fit c k chunks →
  Forall (λ line, len line ≤ maxLineLength c) (lines_from k chunks)
  ∧ ∀ i line, lines_from k chunks !! i = Some line →
              (S i < length chunks)%nat → len line = maxLineLength c.
Proof.
  induction chunks as [|ch chunks IH]; intros k H0 Hk Hfit.
  - split; [constructor | intros i line Hi; done].
  - destruct Hfit as ([Hlo Hhi] & Hfull & Hfit).
    assert (len (ch :: chunks) = 1 + len chunks) as Hl by (unfold len; cbn [length]; lia).
    pose proof (len_nonneg chunks).
    destruct (IH (k + 1)) as [IH1 IH2]; [lia | lia | done |].
    assert (len (Sprintf_line k ch) = maxLineLength c - room c k + len ch) as Hline.
    { rewrite len_Sprintf_line_eq, len_Sprintf_02d, room_width by lia. lia. }
    cbn [lines_from]. split.
    + constructor; [lia | done].
    + intros [|i] line Hi Hlt; cbn in Hi, Hlt.
      * simplify_eq. rewrite Hline, Hfull; [lia|]. by destruct chunks; [cbn in Hlt; lia|].
      * apply (IH2 i); [done | lia].
Qed.

(** X4: when [split] returns at most 10000 lines, no line is longer than
    [maxLineLength], and every line but the last is exactly that long. *)
Theorem split_line_lengths (fuel : nat) (c : create) (buf : gostring)
    (lines : list gostring) (n : Z) :
  split fuel c buf = Ret (lines, n) →
  len lines ≤ 10000 →
  Forall (λ line, len line ≤ maxLineLength c) lines
  ∧ ∀ i line, lines !! i = Some line →
              (S i < length lines)%nat → len line = maxLineLength c.
Proof.
  intros (chunks & Hj & -> & Hfit)%split_loop_fit Hn.
  cbn [app] in *. unfold len in Hn. rewrite length_lines_from in *.
  apply lines_from_lengths; [lia | unfold len; lia | done].
Qed.

Lemma split_line_lengths_witness :
  split 5 {| maxSize := 100; maxLineLength := 10 |} (str "header.payload.signature")
  = Ret ([str "00:header."; str "01:payload"; str "02:.signat"; str "03:ure"], 36)
  ∧ len [str "00:header."; str "01:payload"; str "02:.signat"; str "03:ure"] ≤ 10000
  ∧ Forall (λ line, len line ≤ 10)
      [str "00:header."; str "01:payload"; str "02:.signat"; str "03:ure"].
Proof.
  assert (H : split 5 {| maxSize := 100; maxLineLength := 10 |}
                (str "header.payload.signature")
              = Ret ([str "00:header."; str "01:payload"; str "02:.signat"; str "03:ure"], 36))
    by (vm_compute; reflexivity).
  assert (Hn : len [str "00:header."; str "01:payload"; str "02:.signat"; str "03:ure"]
               ≤ 10000) by (vm_compute; discriminate).
  exact (conj H (conj Hn (proj1 (split_line_lengths _ _ _ _ _ H Hn)))).
Defined.

(** Line 10000 is one byte too long: five digits are printed where room is
    left for four. *)
Example Sprintf_line_10000 :
  index_width 10000 = 4 ∧ len (Sprintf_02d 10000) = 5.
Proof. vm_compute. split; reflexivity. Qed.

Lemma chunks_fit_total c chunks : ∀ k,
  0 ≤ k → k + len chunks ≤ 100 → chunks_fit c k chunks →
  total_len (lines_from k chunks) = len (mjoin chunks) + 3 * len chunks
  ∧ (chunks ≠ [] →
     (len chunks - 1) * (maxLineLength c - 3) < len (mjoin chunks)
     ∧ len (mjoin chunks) ≤ len chunks * (maxLineLength c - 3)).
Proof.
  induction chunks as [|ch chunks IH]; intros k H0 Hk Hfit; [done|].
  destruct Hfit as ([Hlo Hhi] & Hfull & Hfit).
  assert (len (ch :: chunks) = 1 + len chunks) as Hl by (unfold len; cbn [length]; lia).
  pose proof (len_nonneg chunks).
  destruct (IH (k + 1)) as [IH1 IH2]; [lia | lia | done |].
  change (mjoin (ch :: chunks)) with (ch ++ mjoin chunks). rewrite len_app, Hl.
  assert (room c k = maxLineLength c - 3) as Hroom
    by (unfold room; repeat case_match; lia).
  rewrite Hroom in *.
  split.
  - cbn [lines_from total_len foldr]. fold (total_len (lines_from (k + 1) chunks)).
    rewrite IH1, len_Sprintf_line_eq, len_Sprintf_02d by lia.
    unfold index_width. repeat case_match; lia.
  - intros _. destruct chunks as [|ch' chunks].
    + change (len (mjoin [])) with 0. change (len []) with 0. lia.
    + specialize (Hfull ltac:(done)). specialize (IH2 ltac:(done)). nia.
Qed.

(** X5: when [split] returns at most 100 lines, every line costs three bytes
    on top of its payload: the byte count is the length of the buffer plus
    three times the number of lines, and the number of lines is the length of
    the buffer divided by [maxLineLength - 3], rounded up. *)
Theorem split_size (fuel : nat) (c : create) (buf : gostring)
    (lines : list gostring) (n : Z) :
  split fuel c buf = Ret (lines, n) →
  len lines ≤ 100 →
  n = len buf + 3 * len lines
  ∧ (buf ≠ [] →
     (len lines - 1) * (maxLineLength c - 3) < len buf
     ∧ len buf ≤ len lines * (maxLineLength c - 3)).
Proof.
  intros Hs Hn.
  destruct (split_returns _ _ _ _ _ Hs) as (chunks' & _ & _ & ->).
  apply split_loop_fit in Hs as (chunks & <- & -> & Hfit).
  cbn [app] in *.
  assert (len (lines_from 0 chunks) = len chunks) as Hl
    by (unfold len; by rewrite length_lines_from).
  rewrite Hl in *.
  destruct (chunks_fit_total c chunks 0) as [H1 H2]; [lia | lia | done |].
  split; [done|]. intros Hb. apply H2. by intros ->.
Qed.

Lemma split_size_witness :
  split 5 {| maxSize := 100; maxLineLength := 10 |} (str "header.payload.signature")
  = Ret ([str "00:header."; str "01:payload"; str "02:.signat"; str "03:ure"], 36)
  ∧ len [str "00:header."; str "01:payload"; str "02:.signat"; str "03:ure"] ≤ 100
  ∧ 36 = len (str "header.payload.signature")
         + 3 * len [str "00:header."; str "01:payload"; str "02:.signat"; str "03:ure"].
Proof.
  assert (H : split 5 {| maxSize := 100; maxLineLength := 10 |}
                (str "header.payload.signature")
              = Ret ([str "00:header."; str "01:payload"; str "02:.signat"; str "03:ure"], 36))
    by (vm_compute; reflexivity).
  assert (Hn : len [str "00:header."; str "01:payload"; str "02:.signat"; str "03:ure"]
               ≤ 100) by (vm_compute; discriminate).
  exact (conj H (conj Hn (proj1 (split_size _ _ _ _ _ H Hn)))).
Defined.

(** X6: a token that fits one line is returned as the single line ["00:"]
    followed by the token, when that line is within [maxSize]. *)
Theorem CreateRecord_single_line (fuel : nat) (jwt : gostring)
    (opts : list CreateOption) :
  0 < len jwt ≤ maxLineLength (configure opts) - 3 →
  len jwt + 3 ≤ maxSize (configure opts) →
  CreateRecord (S fuel) jwt opts = Ret ([str "00:" ++ jwt], None).
Proof.
  intros [Hlo Hhi] Hsize. rewrite CreateRecord_split. unfold split.
  cbn [split_loop]. destruct (Z.gtb_spec (len jwt) 0) as [_|]; [|lia].
  cbn [negb]. cbv zeta. rewrite line_room_room. change (len []) with 0.
  change (room (configure opts) 0) with (maxLineLength (configure opts) - 3).
  unfold slice_to, slice_from.
  set (max := if len jwt <? maxLineLength (configure opts) - 3
              then len jwt else maxLineLength (configure opts) - 3).
  assert (max = len jwt) as -> by (subst max; case_match; lia).
  destruct (Z.leb_spec 0 (len jwt)); [|lia].
  destruct (Z.leb_spec (len jwt) (len jwt)); [|lia].
  cbn [andb mbind run_mbind run_bind].
  assert (take (Z.to_nat (len jwt)) jwt = jwt) as ->
    by (unfold len; rewrite Nat2Z.id; apply firstn_all).
  assert (drop (Z.to_nat (len jwt)) jwt = []) as ->
    by (unfold len; rewrite Nat2Z.id; apply drop_all).
  assert (∀ idx result n, split_loop fuel (configure opts) idx [] result n
                          = Ret (result, n)) as -> by (by destruct fuel).
  cbn [app]. change (Sprintf_line 0 jwt) with (str "00:" ++ jwt).
  rewrite len_app. change (len (str "00:")) with 3.
  destruct (Z.gtb_spec (0 + (3 + len jwt)) (maxSize (configure opts))); [lia | done].
Qed.

Lemma CreateRecord_single_line_witness :
  0 < len (str "header.payload.signature") ≤ maxLineLength (configure []) - 3
  ∧ len (str "header.payload.signature") + 3 ≤ maxSize (configure [])
  ∧ CreateRecord 1 (str "header.payload.signature") []
    = Ret ([str "00:" ++ str "header.payload.signature"], None).
Proof.
  assert (H1 : 0 < len (str "header.payload.signature") ≤ maxLineLength (configure []) - 3)
    by (vm_compute; split; [reflexivity | discriminate]).
  assert (H2 : len (str "header.payload.signature") + 3 ≤ maxSize (configure []))
    by (vm_compute; discriminate).
  exact (conj H1 (conj H2 (CreateRecord_single_line 0 _ _ H1 H2))).
Defined.

(** ** White space around the fields of a line *)

Lemma isSpace2_tail c1 c2 :
  isSpace2 c1 c2 = true → isSpace1 c2 = false ∧ 128 ≤ byteZ c2 ≤ 191.
Proof. unfold isSpace2, isSpace1. cbv zeta. lia. Qed.

Lemma isSpace3_tail c1 c2 c3 :
  isSpace3 c1 c2 c3 = true →
  isSpace1 c3 = false ∧ isSpace2 c2 c3 = false
  ∧ 128 ≤ byteZ c2 ≤ 191 ∧ 128 ≤ byteZ c3 ≤ 191.
Proof. unfold isSpace3, isSpace2, isSpace1. cbv zeta. lia. Qed.

Lemma trimFront_cons fwd c1 s1 :
  trimFront fwd (c1 :: s1)
  = if isSpace1 c1 then trimFront fwd s1
    else match s1 with
         | [] => c1 :: s1
         | c2 :: s2 =>
             if (if fwd then isSpace2 c1 c2 else isSpace2 c2 c1) then trimFront fwd s2
             else match s2 with
                  | [] => c1 :: s1
                  | c3 :: s3 =>
                      if (if fwd then isSpace3 c1 c2 c3 else isSpace3 c3 c2 c1)
                      then trimFront fwd s3
                      else c1 :: s1
                  end
         end.
Proof. reflexivity. Qed.

Lemma trimFront_fwd_white w : white_space w →
  ∀ r, trimFront true (w ++ r) = trimFront true r.
Proof.
  induction 1 as [|c s Hc _ IH|c1 c2 s Hc _ IH|c1 c2 c3 s Hc _ IH]; intros r;
    [done|..]; cbn [app]; rewrite trimFront_cons.
  - by rewrite Hc.
  - by rewrite (isSpace2_lead _ _ Hc), Hc.
  - destruct (isSpace3_lead _ _ _ Hc) as [H1 H2]. by rewrite H1, H2, Hc.
Qed.

Lemma trimFront_back_white w : white_space w →
  ∀ r, trimFront false (reverse w ++ r) = trimFront false r.
Proof.
  induction 1 as [|c s Hc _ IH|c1 c2 s Hc _ IH|c1 c2 c3 s Hc _ IH]; intros r;
    [done|..]; rewrite !reverse_cons, <- !app_assoc, IH; cbn [app];
    rewrite trimFront_cons.
  - by rewrite Hc.
  - destruct (isSpace2_tail _ _ Hc) as [H1 _]. by rewrite H1, Hc.
  - destruct (isSpace3_tail _ _ _ Hc) as (H1 & H2 & _). by rewrite H1, H2, Hc.
Qed.

(** The first byte of white space is no continuation byte of UTF-8. *)
Lemma white_space_head c w :
  white_space (c :: w) → byteZ c < 128 ∨ 191 < byteZ c.
Proof.
  inversion 1 as [|? ? Hc|? ? ? Hc|? ? ? ? Hc]; subst;
    revert Hc; unfold isSpace1, isSpace2, isSpace3; cbv zeta; lia.
Qed.

Lemma space_at_white s w :
  s ≠ [] → has_space s = false → white_space w → space_at (s ++ w) = false.
Proof.
  intros Hne Hs Hw. destruct w as [|c w]; [rewrite app_nil_r; by apply has_space_head|].
  apply white_space_head in Hw.
  assert (H2 : ∀ a, isSpace2 a c = false).
  { intros a. destruct (isSpace2 a c) eqn:E; [|done]. apply isSpace2_tail in E. lia. }
  assert (H3 : ∀ a b, isSpace3 a c b = false).
  { intros a b. destruct (isSpace3 a c b) eqn:E; [|done]. apply isSpace3_tail in E. lia. }
  assert (H3' : ∀ a b, isSpace3 a b c = false).
  { intros a b. destruct (isSpace3 a b c) eqn:E; [|done]. apply isSpace3_tail in E. lia. }
  destruct s as [|c1 [|c2 [|c3 s]]]; [done|..]; revert Hs; cbn [has_space space_at app].
  - rewrite H2. destruct w; rewrite ?H3; case_spaces.
  - rewrite H3'. case_spaces.
  - case_spaces.
Qed.

(** Trimming takes the white space off both ends of a string that holds
    none. *)
Lemma TrimSpace_pad w1 s w2 :
  white_space w1 → white_space w2 → has_space s = false →
  TrimSpace (w1 ++ s ++ w2) = s.
Proof.
  intros H1 H2 Hs. unfold TrimSpace. rewrite trimFront_fwd_white by done.
  destruct (decide (s = [])) as [->|Hne].
  - cbn [app]. by rewrite trimFront_white_space.
  - rewrite trimFront_fwd_id by by apply space_at_white.
    rewrite reverse_app, trimFront_back_white by done.
    by rewrite trimFront_back_id, reverse_involutive.
Qed.

Lemma white_space_no_colon w : white_space w → count_byte ":" w = 0%nat.
Proof.
  assert (Hb : ∀ c, byteZ c ≠ 58 → Ascii.eqb c ":" = false).
  { intros c Hc. destruct (Ascii.eqb_spec c ":") as [->|]; [|done]. by destruct Hc. }
  induction 1 as [|c s Hc _ IH|c1 c2 s Hc _ IH|c1 c2 c3 s Hc _ IH];
    [done|..]; cbn [count_byte]; rewrite IH.
  - rewrite Hb; [done|]. revert Hc. unfold isSpace1. cbv zeta. lia.
  - destruct (isSpace2_tail _ _ Hc) as [_ ?].
    rewrite !Hb; [done|lia|]. revert Hc. unfold isSpace2. lia.
  - destruct (isSpace3_tail _ _ _ Hc) as (_ & _ & ? & ?).
    rewrite !Hb; [done|lia|lia|]. revert Hc. unfold isSpace3. cbv zeta. lia.
Qed.

Lemma digits_nonempty_Sprintf_02d idx : Sprintf_02d idx ≠ [].
Proof.
  unfold Sprintf_02d. destruct (idx <? 0); [done|]. cbv zeta.
  destruct (len (itoa idx) <? 2) eqn:E; [done|].
  intros H. rewrite H in E. discriminate E.
Qed.

(** X7: the decoder reads a line of the encoder back as its index and its
    payload, also when white space has been put around the index and around
    the payload, as long as the payload holds no colon and no white space. *)
Theorem frame_of_padded (idx : Z) (s w1 w2 w3 w4 : gostring) :
  0 ≤ idx < 2 ^ 63 → plain s →
  white_space w1 → white_space w2 → white_space w3 → white_space w4 →
  frame_of ((w1 ++ Sprintf_02d idx ++ w2) ++ ":"%char :: (w3 ++ s ++ w4))
  = Some (idx, s).
Proof.
  intros Hi [Hc Hs] H1 H2 H3 H4.
  pose proof (digits_Sprintf_02d idx (proj1 Hi)) as Hd.
  assert (Hns : has_space (Sprintf_02d idx) = false) by by apply digits_no_space.
  assert (Hg : getIndexInt (w1 ++ Sprintf_02d idx ++ w2) = idx).
  { pose proof (getIndexInt_Sprintf_02d idx Hi) as Hg.
    unfold getIndexInt in *. rewrite TrimSpace_pad by done.
    by rewrite TrimSpace_id in Hg. }
  rewrite frame_of_fields.
  - rewrite Hg, TrimSpace_pad by done.
    destruct (Z.ltb_spec idx 0); [lia | done].
  - rewrite !count_byte_app, (white_space_no_colon _ H1), (white_space_no_colon _ H2).
    by rewrite (digits_no_colon _ Hd).
  - rewrite !count_byte_app, (white_space_no_colon _ H3), (white_space_no_colon _ H4).
    by rewrite Hc.
Qed.

Lemma frame_of_padded_witness :
  0 ≤ 1 < 2 ^ 63 ∧ plain (str ".payload.")
  ∧ frame_of ((str " " ++ Sprintf_02d 1 ++ []) ++ ":"%char :: (str "  " ++ str ".payload." ++ []))
    = Some (1, str ".payload.").
Proof.
  assert (Hi : 0 ≤ 1 < 2 ^ 63) by lia.
  assert (Hp : plain (str ".payload.")) by (split; reflexivity).
  assert (H1 : white_space (str " ")) by (repeat constructor).
  assert (H3 : white_space (str "  ")) by (repeat constructor).
  exact (conj Hi (conj Hp
    (frame_of_padded 1 (str ".payload.") (str " ") [] (str "  ") []
       Hi Hp H1 white_nil H3 white_nil))).
Defined.

(** ** What the decoder returns *)

(** The second loop either meets a missing index and returns the empty
    string, or finds a payload at every index it visits and appends them. *)
Lemma reassemble_join_cases (parts : gmap Z gostring) todo : ∀ i buf,
  (reassemble_join parts todo i buf = []
   ∧ ∃ j, i ≤ j < i + Z.of_nat todo ∧ parts !! j = None)
  ∨ ∃ vals,
      length vals = todo
      ∧ (∀ k val, vals !! k = Some val → parts !! (i + Z.of_nat k) = Some val)
      ∧ reassemble_join parts todo i buf = buf ++ mjoin vals.
Proof.
  induction todo as [|todo IH]; intros i buf.
  - right. exists []. split_and!; [done | done | by rewrite app_nil_r].
  - cbn [reassemble_join]. destruct (parts !! i) as [val|] eqn:Hi.
    + destruct (IH (i + 1) (buf ++ val)) as [[Hr (j & Hj & Hn)]|(vals & Hl & Hv & Hr)].
      * left. split; [done|]. exists j. split; [lia | done].
      * right. exists (val :: vals). split_and!.
        -- cbn. by rewrite Hl.
        -- intros [|k] v Hk; cbn in Hk.
           ++ simplify_eq. by rewrite Z.add_0_r.
           ++ replace (i + Z.of_nat (S k)) with (i + 1 + Z.of_nat k) by lia. eauto.
        -- rewrite Hr, <- app_assoc. done.
    + left. split; [done|]. exists i. split; [lia | done].
Qed.

Lemma map_seqZ_full (parts : gmap Z gostring) vals :
  length vals = size parts →
  (∀ k val, vals !! k = Some val → parts !! (0 + Z.of_nat k) = Some val) →
  parts = map_seqZ 0 vals.
Proof.
  intros Hl Hv. symmetry. apply map_subseteq_size_eq.
  - apply map_subseteq_spec. intros i x Hi.
    apply lookup_map_seqZ_Some in Hi as [H0 Hx].
    replace i with (0 + Z.of_nat (Z.to_nat (i - 0))) by lia. by apply Hv.
  - rewrite size_map_seqZ. lia.
Qed.

Lemma reassemble_cases lines :
  (reassemble lines = Ret []
   ∧ ∃ j, 0 ≤ j < Z.of_nat (size (parts_of lines)) ∧ parts_of lines !! j = None)
  ∨ ∃ vals, parts_of lines = map_seqZ 0 vals ∧ reassemble lines = Ret (mjoin vals).
Proof.
  rewrite reassemble_parts_of.
  destruct (reassemble_join_cases (parts_of lines) (size (parts_of lines)) 0 [])
    as [[Hr Hj]|(vals & Hl & Hv & Hr)].
  - left. by rewrite Hr.
  - right. exists vals. split; [by apply map_seqZ_full | by rewrite Hr].
Qed.

(** X8: when [reassemble] returns a string that is not empty, the indices of
    the map it built are exactly 0 .. n-1 and the string is the concatenation
    of the n payloads in the order of their indices. *)
Theorem reassemble_nonempty (lines : list gostring) (parts : gmap Z gostring)
    (s : gostring) :
  reassemble_lines {[ 0 := [] ]} lines = Ret parts →
  reassemble lines = Ret s →
  s ≠ [] →
  ∃ vals, parts = map_seqZ 0 vals ∧ s = mjoin vals.
Proof.
  intros Hp Hs Hne. rewrite reassemble_lines_frames in Hp.
  injection Hp as <-. fold (parts_of lines).
  destruct (reassemble_cases lines) as [[Hr _]|(vals & Hm & Hr)];
    rewrite Hr in Hs; injection Hs as <-; [done|].
  by exists vals.
Qed.

Lemma reassemble_nonempty_witness :
  ∃ vals,
    parts_of [str "02:signature"; str "00:header"; str "01:.payload."] = map_seqZ 0 vals
    ∧ str "header.payload.signature" = mjoin vals.
Proof.
  apply (reassemble_nonempty [str "02:signature"; str "00:header"; str "01:.payload."]).
  - vm_compute. reflexivity.
  - vm_compute. reflexivity.
  - discriminate.
Defined.

Lemma size_foldl_store frames : ∀ parts : gmap Z gostring,
  (size (foldl store parts frames) ≤ size parts + length frames)%nat.
Proof.
  induction frames as [|fr frames IH]; intros parts; cbn [foldl length]; [lia|].
  etransitivity; [apply IH|]. unfold store.
  destruct (parts !! fr.1) eqn:E.
  - rewrite map_size_insert_Some by done. lia.
  - rewrite map_size_insert_None by done. lia.
Qed.

Lemma length_frames lines : (length (omap frame_of lines) ≤ length lines)%nat.
Proof.
  induction lines as [|line lines IH]; cbn; [lia|].
  destruct (frame_of line); cbn; lia.
Qed.

Lemma lookup_foldl_store frames k p : ∀ parts : gmap Z gostring,
  (k, p) ∈ frames → is_Some (foldl store parts frames !! k).
Proof.
  intros parts Hin. rewrite foldl_store_union.
  destruct ((list_to_map (reverse frames) : gmap Z gostring) !! k) as [x|] eqn:E.
  - exists x. by apply lookup_union_Some_l.
  - apply not_elem_of_list_to_map in E. destruct E.
    rewrite fmap_reverse, elem_of_reverse. apply list_elem_of_fmap.
    by exists (k, p).
Qed.

(** X9: a line the decoder accepts whose index is greater than the number
    of lines makes [reassemble] return the empty string, whatever the other
    lines are. *)
Theorem reassemble_stray_index (lines : list gostring) (line : gostring)
    (k : Z) (p : gostring) :
  line ∈ lines →
  frame_of line = Some (k, p) →
  len lines < k →
  reassemble lines = Ret [].
Proof.
  intros Hin Hfr Hk.
  destruct (reassemble_cases lines) as [[Hr _]|(vals & Hm & Hr)]; [done|].
  exfalso.
  assert (is_Some (parts_of lines !! k)) as Hs.
  { apply (lookup_foldl_store _ k p). apply list_elem_of_omap. by exists line. }
  rewrite Hm in Hs. apply lookup_map_seqZ_is_Some in Hs.
  pose proof (size_foldl_store (omap frame_of lines) {[ 0 := [] ]}) as Hsz.
  fold (parts_of lines) in Hsz. rewrite Hm, size_map_seqZ, map_size_singleton in Hsz.
  pose proof (length_frames lines) as Ho. unfold len in Hk. lia.
Qed.

Lemma reassemble_stray_index_witness :
  str "07:x" ∈ [str "00:header"; str "01:.payload."; str "07:x"]
  ∧ frame_of (str "07:x") = Some (7, str "x")
  ∧ len [str "00:header"; str "01:.payload."; str "07:x"] < 7
  ∧ reassemble [str "00:header"; str "01:.payload."; str "07:x"] = Ret [].
Proof.
  assert (H1 : str "07:x" ∈ [str "00:header"; str "01:.payload."; str "07:x"])
    by (do 2 right; left).
  assert (H2 : frame_of (str "07:x") = Some (7, str "x")) by reflexivity.
  assert (H3 : len [str "00:header"; str "01:.payload."; str "07:x"] < 7)
    by reflexivity.
  exact (conj H1 (conj H2 (conj H3 (reassemble_stray_index _ _ _ _ H1 H2 H3)))).
Defined.

Lemma list_to_map_shadowed (front back : list (Z * gostring)) k v :
  k ∈ front.*1 →
  (list_to_map (front ++ (k, v) :: back) : gmap Z gostring)
  = list_to_map (front ++ back).
Proof.
  intros Hk. rewrite !list_to_map_app. cbn [list_to_map foldr].
  apply map_eq. intros i. rewrite !lookup_union.
  destruct (decide (i = k)) as [->|Hne].
  - destruct ((list_to_map front : gmap Z gostring) !! k) as [x|] eqn:E;
      [rewrite lookup_insert_eq; by destruct ((list_to_map back : gmap Z gostring) !! k)|].
    by apply not_elem_of_list_to_map in E.
  - by rewrite lookup_insert_ne.
Qed.

(** X10: a line is without effect when a later line the decoder accepts has
    the same index: [reassemble] returns what it returns without the earlier
    line. *)
Theorem reassemble_overwritten (l1 l2 l3 : list gostring) (line line' : gostring)
    (k : Z) (p p' : gostring) :
  frame_of line = Some (k, p) →
  frame_of line' = Some (k, p') →
  reassemble (l1 ++ line :: l2 ++ line' :: l3)
  = reassemble (l1 ++ l2 ++ line' :: l3).
Proof.
  intros Hl Hl'. rewrite !reassemble_parts_of.
  assert (parts_of (l1 ++ line :: l2 ++ line' :: l3)
          = parts_of (l1 ++ l2 ++ line' :: l3)) as ->; [|done].
  unfold parts_of. rewrite !foldl_store_union. f_equal.
  rewrite !omap_app. cbn [omap list_omap]. rewrite !omap_app. cbn [omap list_omap].
  rewrite Hl, Hl'.
  rewrite !reverse_app, !reverse_cons, !reverse_app, !reverse_cons, <- !app_assoc.
  cbn [app].
  set (r1 := reverse (omap frame_of l1)). set (r2 := reverse (omap frame_of l2)).
  set (r3 := reverse (omap frame_of l3)).
  replace (r3 ++ (k, p') :: r2 ++ (k, p) :: r1)
    with ((r3 ++ (k, p') :: r2) ++ (k, p) :: r1) by (by rewrite <- app_assoc).
  rewrite list_to_map_shadowed.
  - by rewrite <- app_assoc.
  - rewrite fmap_app. cbn. set_solver.
Qed.

Lemma reassemble_overwritten_witness :
  frame_of (str "0:old") = Some (0, str "old")
  ∧ frame_of (str "00:header") = Some (0, str "header")
  ∧ reassemble ([] ++ str "0:old" :: [str "01:.payload."] ++ str "00:header" :: [])
    = reassemble ([] ++ [str "01:.payload."] ++ str "00:header" :: []).
Proof.
  assert (H1 : frame_of (str "0:old") = Some (0, str "old")) by reflexivity.
  assert (H2 : frame_of (str "00:header") = Some (0, str "header")) by reflexivity.
  exact (conj H1 (conj H2 (reassemble_overwritten [] _ [] _ _ _ _ _ H1 H2))).
Defined.

(** ** A record cut short *)




(** ** The options of CreateRecord *)

Lemma configure_snoc opts opt : configure (opts ++ [opt]) = apply opt (configure opts).
Proof. unfold configure. by rewrite app_assoc, foldl_snoc. Qed.

(** X11: the budget [CreateRecord] works with is the default (15360 bytes,
    lines of 254) changed by the options in their order: the last
    [WithMaxLineLength] and the last [WithMaxSize] decide, a value out of
    range (also 0) puts the default back, a [nil] option changes nothing; the
    budget is always within 1..65270 bytes and 1..254 per line. *)
Theorem configure_options (opts : list CreateOption) :
  in_budget (configure opts)
  ∧ configure [] = {| maxSize := 15 * 1024; maxLineLength := 254 |}
  ∧ (∀ length,
       configure (opts ++ [WithMaxLineLength length])
       = {| maxSize := maxSize (configure opts);
            maxLineLength := if (1 <=? length) && (length <=? 254) then length else 254 |})
  ∧ (∀ size,
       configure (opts ++ [WithMaxSize size])
       = {| maxSize := if (1 <=? size) && (size <=? 65270) then size else 15 * 1024;
            maxLineLength := maxLineLength (configure opts) |})
  ∧ configure (opts ++ [NilOption]) = configure opts.
Proof.
  split_and!.
  - apply configure_in_budget.
  - reflexivity.
  - intros length. rewrite configure_snoc. cbn. f_equal.
    destruct (Z.leb_spec length 0), (Z.gtb_spec length 254),
      (Z.leb_spec 1 length), (Z.leb_spec length 254); cbn; lia.
  - intros size. rewrite configure_snoc. cbn. f_equal.
    destruct (Z.leb_spec size 0), (Z.gtb_spec size 65270),
      (Z.leb_spec 1 size), (Z.leb_spec size 65270); cbn; lia.
  - by rewrite configure_snoc.
Qed.

(** ** New and the options of a Fetcher *)

Section fetcher.
Context {Resolver ParseOption : Type} (DefaultResolver : Resolver).

Lemma default_last_cons {A} (d x : A) l :
  default d (last (x :: l)) = default x (last l).
Proof. rewrite last_cons. by destruct (last l). Qed.

(** The loop of [New] over options other than [validateOptions], and then
    [validateOptions]: every field holds the value of the last option that
    sets it, the parse options are appended, and the FQDN is checked at the
    end. *)
Lemma New_loop_options (options : list (@Fetch.FetcherOption Resolver ParseOption)) :
  Fetch.validateOptions ∉ options →
  ∀ r,
    Fetch.New_loop DefaultResolver r (options ++ [Fetch.validateOptions])
    = let r' :=
        {| Fetch.fqdn := default (Fetch.fqdn r) (last (omap Fetch.fqdn_of options));
           Fetch.resolver :=
             match last (omap (Fetch.resolver_of DefaultResolver) options) with
             | Some resolver => Some resolver
             | None => Fetch.resolver r
             end;
           Fetch.timeout := default (Fetch.timeout r) (last (omap Fetch.timeout_of options));
           Fetch.opts := Fetch.opts r ++ (options ≫= Fetch.parse_options_of) |} in
      match Fetch.fqdn r' with
      | [] => (None, Some (Fetch.Errorf "%w fqdn must be set" ErrInvalidInput))
      | _ => (Some r', None)
      end.
Proof.
  induction options as [|opt options IH]; intros Hv r.
  - destruct r as [f res t o]. cbn. rewrite app_nil_r. by destruct f.
  - apply not_elem_of_cons in Hv as [Hopt Hv].
    destruct opt as [[res|]|f|t|o| |]; [..|done|];
      cbn [app Fetch.New_loop Fetch.apply]; rewrite (IH Hv); cbv zeta;
      cbn [omap list_omap Fetch.fqdn_of Fetch.resolver_of Fetch.timeout_of
             Fetch.fqdn Fetch.resolver Fetch.timeout Fetch.opts];
      rewrite ?default_last_cons, ?last_cons;
      try (destruct (last (omap (Fetch.resolver_of DefaultResolver) options)));
      try reflexivity.
    all: by rewrite <- app_assoc.
Qed.

(** X12: for options built by the constructors of the package, [New]
    returns the Fetcher they describe: the last FQDN, the last resolver (the
    default one for [nil] or none), the last timeout (30 s for 0 or none) and
    all the parse options in order; when that FQDN is empty it returns no
    Fetcher and an error that wraps [ErrInvalidInput]. *)
Theorem New_configured (options : list (@Fetch.FetcherOption Resolver ParseOption)) :
  Fetch.validateOptions ∉ options →
  Fetch.New DefaultResolver options
  = match Fetch.fqdn (Fetch.configured DefaultResolver options) with
    | [] => (None, Some (Fetch.Errorf "%w fqdn must be set" ErrInvalidInput))
    | _ => (Some (Fetch.configured DefaultResolver options), None)
    end.
Proof.
  intros Hv. unfold Fetch.New. rewrite New_loop_options.
  - cbv zeta. cbn [app omap list_omap Fetch.fqdn_of Fetch.resolver_of Fetch.timeout_of
                     Fetch.fqdn Fetch.resolver Fetch.timeout Fetch.opts].
    rewrite default_last_cons, last_cons. unfold Fetch.configured.
    change (0 =? 0) with true. cbv iota.
    cbn [Fetch.fqdn app].
    destruct (last (omap (Fetch.resolver_of DefaultResolver) options)); reflexivity.
  - cbn [app]. rewrite !not_elem_of_cons. by split_and!.
Qed.

Lemma apply_kept opt (r r' : @Fetch.Fetcher Resolver ParseOption) err :
  Fetch.kept r → Fetch.apply DefaultResolver opt r = (r', err) →
  Fetch.kept r' ∧ (∀ e, err = Some e → Fetch.Is e ErrInvalidInput).
Proof.
  intros [Hr Ht] Ha. destruct opt as [[res|]|f|t|o| |]; cbn in Ha.
  - injection Ha as <- <-. split; [split; cbn; eauto | done].
  - injection Ha as <- <-. split; [split; cbn; eauto | done].
  - injection Ha as <- <-. split; [split; cbn; eauto | done].
  - injection Ha as <- <-. split; [split; cbn; [done|] | done].
    destruct (Z.eqb_spec t 0); [done | lia].
  - injection Ha as <- <-. split; [split; cbn; eauto | done].
  - destruct (Fetch.fqdn r); injection Ha as <- <-; (split; [done|]);
      [by intros e [= <-] | done].
  - injection Ha as <- <-. split; [done | done].
Qed.

Lemma New_loop_kept (options : list (@Fetch.FetcherOption Resolver ParseOption)) :
  ∀ r : @Fetch.Fetcher Resolver ParseOption, Fetch.kept r →
  (∃ r', Fetch.New_loop DefaultResolver r (options ++ [Fetch.validateOptions])
         = (Some r', None)
         ∧ Fetch.fqdn r' ≠ [] ∧ Fetch.kept r')
  ∨ (∃ err, Fetch.New_loop DefaultResolver r (options ++ [Fetch.validateOptions])
            = (None, Some err)
            ∧ Fetch.Is err ErrInvalidInput).
Proof.
  induction options as [|opt options IH]; intros r Hk.
  - cbn. destruct (Fetch.fqdn r) eqn:E.
    + right. by eexists.
    + left. exists r. rewrite E. done.
  - cbn [app Fetch.New_loop].
    destruct (Fetch.apply DefaultResolver opt r) as [r' [e|]] eqn:Ha.
    + destruct (apply_kept _ _ _ _ Hk Ha) as [_ He].
      destruct opt; right; exists e; (split; [done | by apply He]).
    + destruct (apply_kept _ _ _ _ Hk Ha) as [Hk' _].
      destruct opt; try apply (IH _ Hk').
      cbn in Ha. injection Ha as <-. by apply IH.
Qed.

(** X13: whatever the options, [New] returns either a Fetcher and no error,
    and then the FQDN of the Fetcher is not empty, its resolver is not [nil]
    and its timeout is not 0, or no Fetcher and an error that is
    [ErrInvalidInput]. *)
Theorem New_result (options : list (@Fetch.FetcherOption Resolver ParseOption)) :
  (∃ r, Fetch.New DefaultResolver options = (Some r, None)
        ∧ Fetch.fqdn r ≠ []
        ∧ is_Some (Fetch.resolver r)
        ∧ Fetch.timeout r ≠ 0)
  ∨ (∃ err, Fetch.New DefaultResolver options = (None, Some err)
            ∧ Fetch.Is err ErrInvalidInput).
Proof.
  unfold Fetch.New. cbn [app Fetch.New_loop Fetch.apply].
  change (0 =? 0) with true. cbv iota.
  edestruct (New_loop_kept options) as [(r' & -> & Hf & Hr & Ht)|(err & -> & He)];
    [| left; by exists r' | right; by exists err].
  split; cbn; [by eexists | done].
Qed.
End fetcher.

Lemma New_configured_witness :
  (@Fetch.validateOptions unit nat
     ∉ [Fetch.WithFQDN (str "a.example.com"); Fetch.WithTimeout 0;
        Fetch.WithParseOptions [1%nat; 2%nat]; Fetch.WithFQDN (str "b.example.com");
        Fetch.WithParseOptions [3%nat]])
  ∧ Fetch.New (Resolver := unit) (ParseOption := nat) tt
      [Fetch.WithFQDN (str "a.example.com"); Fetch.WithTimeout 0;
       Fetch.WithParseOptions [1%nat; 2%nat]; Fetch.WithFQDN (str "b.example.com");
       Fetch.WithParseOptions [3%nat]]
    = (Some {| Fetch.fqdn := str "b.example.com"; Fetch.resolver := Some tt;
               Fetch.timeout := 30000000000; Fetch.opts := [1%nat; 2%nat; 3%nat] |},
       None).
Proof.
  assert (H : @Fetch.validateOptions unit nat
    ∉ [Fetch.WithFQDN (str "a.example.com"); Fetch.WithTimeout 0;
       Fetch.WithParseOptions [1%nat; 2%nat];
       Fetch.WithFQDN (str "b.example.com");
       Fetch.WithParseOptions [3%nat]]).
  { rewrite !not_elem_of_cons. split_and!; try discriminate. apply not_elem_of_nil. }
  exact (conj H (New_configured tt _ H)).
Defined.
